(** * languru.action.hf: the TransformersAction adapter

    A shallow embedding of [src/languru/action/hf.py]: the prompt builder and
    stop-word handling of [chat], the budget, finish-reason and token accounting
    of [text_completion], [remove_echo_text] and the pooling step of
    [embeddings].

    Python text is modelled as [string], each character standing for a code
    point below U+0100; Python integers as [Z], a number that may be an
    integer or a float as [PyNumber], [None] as [option], a raised exception
    as [Raise], and the log together with the calls made to the tokenizer and
    the model as a trace of events. *)

From stdpp Require Import base option list gmap strings.
From Stdlib Require Import Ascii ZArith QArith Qcanon Lia.

Local Open Scope string_scope.
Local Open Scope list_scope.
Local Open Scope Z_scope.

(** ** Text helpers *)

Module Text.

(** [str.isspace] on the code points below U+0100: tab, line feed, vertical
    tab, form feed, carriage return, the four separators U+001C-U+001F, the
    space, next line (U+0085) and the no-break space (U+00A0). The [\s] class
    of [re] on [str] patterns is the same set. *)
Definition isspace (c : ascii) : bool :=
  let n := nat_of_ascii c in
  ((9 <=? n)%nat && (n <=? 13)%nat) || ((28 <=? n)%nat && (n <=? 32)%nat)
  || (n =? 133)%nat || (n =? 160)%nat.

Fixpoint lstrip (s : string) : string :=
  match s with
  | String c s' => if isspace c then lstrip s' else s
  | EmptyString => EmptyString
  end.

(** [rstrip] keeps a character when it is not a space or when something
    remains after it. *)
Fixpoint rstrip (s : string) : string :=
  match s with
  | String c s' =>
      match rstrip s' with
      | EmptyString => if isspace c then EmptyString else String c EmptyString
      | r => String c r
      end
  | EmptyString => EmptyString
  end.

(** [s.strip()] *)
Definition strip (s : string) : string := rstrip (lstrip s).

(** Python truthiness of a text: [bool(s)]. *)
Definition truthy (s : string) : bool :=
  match s with EmptyString => false | String _ _ => true end.

(** [s.startswith(p)] returning what follows the prefix. *)
Fixpoint removeprefix (p s : string) : option string :=
  match p, s with
  | EmptyString, _ => Some s
  | String a p', String b s' =>
      if Ascii.eqb a b then removeprefix p' s' else None
  | String _ _, EmptyString => None
  end.

(** What precedes [suffix] when [s] ends with it. *)
Fixpoint removesuffix (suffix s : string) : option string :=
  if String.eqb s suffix then Some EmptyString
  else match s with
       | EmptyString => None
       | String c s' => String c <$> removesuffix suffix s'
       end.

(** [s.replace(old, "", 1)]: the leftmost occurrence of [old] is deleted;
    an empty [old] is found at position 0 and deleting it changes nothing. *)
Fixpoint replace_first (old s : string) : string :=
  match removeprefix old s with
  | Some rest => rest
  | None =>
      match s with
      | EmptyString => EmptyString
      | String c s' => String c (replace_first old s')
      end
  end.

(** [s.replace(old, "")]: every occurrence, left to right, not overlapping.
    [skip] counts the characters of the current occurrence still to drop. *)
Fixpoint replace_all_go (old : string) (skip : nat) (s : string) : string :=
  match s with
  | EmptyString => EmptyString
  | String c s' =>
      match skip with
      | S k => replace_all_go old k s'
      | O =>
          match old, removeprefix old s with
          | String _ old', Some _ => replace_all_go old (String.length old') s'
          | _, _ => String c (replace_all_go old O s')
          end
      end
  end.

Definition replace_all (old s : string) : string := replace_all_go old O s.

(** Iterating a Python [str] yields its characters as one-character texts. *)
Definition chars (s : string) : list string :=
  (λ c, String c EmptyString) <$> String.list_ascii_of_string s.

(** [s] ends with [w]. *)
Definition ends_with (s w : string) : Prop := ∃ head, s = head +:+ w.

End Text.

(** ** Regular expression [\s*TOKEN\s*] of [remove_echo_text] *)

Module Re.

(** Characters of leading whitespace that the trailing [\s*] consumes. *)
Fixpoint spaces (s : string) : nat :=
  match s with
  | String c s' => if Text.isspace c then S (spaces s') else O
  | EmptyString => O
  end.

(** The literal token followed by greedy whitespace, at the start of [s]:
    the number of characters matched. *)
Definition token_here (token s : string) : option nat :=
  match Text.removeprefix token s with
  | Some rest => Some (String.length token + spaces rest)%nat
  | None => None
  end.

(** [re.match(rf"\s*{re.escape(token)}\s*", s)]: the length of the match at
    the start of [s]. The leading [\s*] is greedy: it first takes a space
    and looks for a match behind it, and gives the space back (the token
    itself may begin with one) only when there is none. *)
Fixpoint match_here (token s : string) : option nat :=
  match s with
  | String c s' =>
      if Text.isspace c then
        match match_here token s' with
        | Some n => Some (S n)
        | None => token_here token s
        end
      else token_here token s
  | EmptyString => token_here token s
  end.

(** [re.sub(rf"\s*{re.escape(token)}\s*", "", s)] for a non-empty token:
    scan from the left, delete each match, resume after it. *)
Fixpoint sub_go (token : string) (skip : nat) (s : string) : string :=
  match s with
  | EmptyString => EmptyString
  | String c s' =>
      match skip with
      | S k => sub_go token k s'
      | O =>
          match match_here token s with
          | Some (S n) => sub_go token n s'
          | _ => String c (sub_go token O s')
          end
      end
  end.

Definition sub (token s : string) : string := sub_go token O s.

End Re.

(** ** Exceptions, log records and the trace of a call *)

Inductive PyError : Type :=
  | ValueError (msg : string)
  | TypeError (msg : string)
  | IndexError (msg : string).

Inductive result (A : Type) : Type :=
  | Ok (a : A)
  | Raise (e : PyError).
Arguments Ok {A} a.
Arguments Raise {A} e.

(** The [stop] keyword argument as Python sees it: a text, a sequence of
    texts, or a value that is neither and cannot be iterated ([None], a
    number). *)
Inductive StopParam : Type :=
  | StopText (s : string)
  | StopSequence (ws : list string)
  | StopInvalid.

(** A Python number as a request carries it: an [int], or a finite [float]
    taken as the rational it denotes. These are the values on which both
    [int(.)] and the comparison with a length are defined; a budget of
    another kind (a text, an infinity, a NaN) is outside the model. *)
Inductive PyNumber : Type :=
  | PInt (z : Z)
  | PFloat (q : Q).

Coercion PInt : Z >-> PyNumber.

(** [bool(x)]: zero is false. *)
Definition truthy_number (x : PyNumber) : bool :=
  match x with
  | PInt z => negb (z =? 0)
  | PFloat q => negb (Qeq_bool q 0)
  end.

(** [int(x)]: a float is truncated toward zero. *)
Definition int (x : PyNumber) : Z :=
  match x with
  | PInt z => z
  | PFloat q => Z.quot (Qnum q) (Z.pos (Qden q))
  end.

(** The number as a rational. *)
Definition number_value (x : PyNumber) : Q :=
  match x with
  | PInt z => inject_Z z
  | PFloat q => q
  end.

(** [n >= x] for an integer [n]. *)
Definition ge_number (n : Z) (x : PyNumber) : bool :=
  match x with
  | PInt z => z <=? n
  | PFloat q => Qle_bool q (inject_Z n)
  end.

(** The three [logger.warning] calls of the adapter, with the values their
    messages interpolate. *)
Inductive LogWarning : Type :=
  | ModelMismatch (requested loaded : string)
  | MaxLengthReset (inputs_tokens_length : Z) (max_length : PyNumber)
      (new_max_length : Z)
  | InvalidStopWords (stop : StopParam).

(** ** The stopping criteria object

    Modelled from the spec: [StopAtWordsStoppingCriteria] of
    [languru.utils.hf] is imported by [hf.py] and is not among the sources.
    Per the spec it holds the stop sequences as text, for each the token
    length at which its hook starts the decoded tail (the stop string's own
    token length) and, once a match occurs during generation, the literal
    matched sequence; the finish reason is taken from it only if it
    triggered. *)
Record StopAtWordsStoppingCriteria : Type := {
  sc_stop_words : list string;
  sc_tail_lengths : list nat;
  sc_matched : option string
}.

(** The criteria object after a generation during which the hook matched
    [matched] (or nothing). *)
Definition record_match (matched : option string)
    (sc : StopAtWordsStoppingCriteria) : StopAtWordsStoppingCriteria :=
  {| sc_stop_words := sc_stop_words sc;
     sc_tail_lengths := sc_tail_lengths sc;
     sc_matched := matched |}.

Definition get_stop_reason (sc : StopAtWordsStoppingCriteria) : option string :=
  match sc_matched sc with
  | Some _ => Some "stop"
  | None => None
  end.

(** Keyword arguments that reach [model.generate]. Sampling parameters pass
    through untouched and play no part below. *)
Record GenerateKwargs : Type := {
  gk_max_length : option PyNumber;
  gk_stopping_criteria : option StopAtWordsStoppingCriteria
}.

Inductive Event : Type :=
  | Log (w : LogWarning)
  | TemplateCall (conversation : list (string * string))
  | TokenizerCall (text : string)
  | GenerateCall (input_ids : list Z) (kwargs : GenerateKwargs)
  | DecodeCall (ids : list Z)
  | BatchTokenizerCall (input : list string)
  | ForwardCall (input_ids attention_mask : list (list Z)).

(** A call either returns or raises, and leaves the events it caused. *)
Definition M (A : Type) : Type := (result A * list Event)%type.

Global Instance M_ret : MRet M := λ A a, (Ok a, []).

Global Instance M_bind : MBind M := λ A B f m,
  match m with
  | (Ok a, t) => let '(r, t') := f a in (r, t ++ t')
  | (Raise e, t) => (Raise e, t)
  end.

Definition raise {A : Type} (e : PyError) : M A := (Raise e, []).
Definition emit (ev : Event) : M unit := (Ok tt, [ev]).
Definition emit_all (evs : list Event) : M unit := (Ok tt, evs).
Definition warning (w : LogWarning) : M unit := emit (Log w).

(** ** Collaborators: tokenizer, model, clock *)

(** What the adapter uses of the tokenizer. [chat_template] is [Some render]
    when the tokenizer defines a template, [render] being
    [apply_chat_template(., tokenize=False, add_generation_prompt=True)]. *)
Record Tokenizer : Type := {
  chat_template : option (list (string * string) → string);
  eos_token : option string;
  bos_token : option string;
  eos_token_id : option Z;
  all_special_tokens : list string;
  encode : string → list Z;
  batch_decode : list Z → string;
  encode_batch : list string → list (list Z) * list (list Z)
}.

(** Modelled from the spec: [StopAtWordsStoppingCriteria.from_stop_words] is
    called as [from_stop_words(total_stop_words, self.tokenizer)]; it is
    handed the tokenizer to measure each stop sequence in tokens, which costs
    one tokenizer call per stop sequence, in order. *)
Definition from_stop_words (stop_words : list string) (tok : Tokenizer)
    : StopAtWordsStoppingCriteria :=
  {| sc_stop_words := stop_words;
     sc_tail_lengths := (λ w, length (encode tok w)) <$> stop_words;
     sc_matched := None |}.

Definition from_stop_words_calls (stop_words : list string) : list Event :=
  TokenizerCall <$> stop_words.

(** What the adapter uses of the model: [generate], which returns the output
    ids together with the stop sequence its stopping hook matched, if any
    (the hook records it in the criteria object it was given), and the
    forward pass returning [last_hidden_state] (batch, sequence, hidden). *)
Record Model : Type := {
  generate : list Z → GenerateKwargs → list Z * option string;
  forward : list (list Z) → list (list Z) → list (list (list Qc))
}.

(** The adapter. [default_max_tokens] comes from [ActionBase], which is not
    among the sources, and is taken as given; the check
    [max_length is not None] of [text_completion] allows for its absence. *)
Record TransformersAction : Type := {
  model_name : string;
  stop_words : list string;
  default_max_tokens : option PyNumber;
  tokenizer : Tokenizer;
  model : Model
}.

(** [str(uuid.uuid4())] and the two readings of [int(time.time())]. *)
Record Env : Type := {
  uuid4 : string;
  time_begin : Z;
  time_end : Z
}.

(** ** Request and response records *)

Record Message : Type := {
  role : string;
  content : option string
}.

Record Kwargs : Type := {
  kw_max_tokens : option PyNumber;
  kw_max_length : option PyNumber;
  kw_stop : option StopParam
}.

Record CompletionChoice : Type := {
  cc_finish_reason : string;
  cc_index : Z;
  cc_text : string
}.

Record CompletionUsage : Type := {
  total_tokens : Z;
  prompt_tokens : Z;
  completion_tokens : Z
}.

Record Completion : Type := {
  c_id : string;
  c_choices : list CompletionChoice;
  c_created : Z;
  c_model : string;
  c_usage : option CompletionUsage
}.

Record ChatCompletionMessage : Type := {
  m_role : string;
  m_content : string
}.

Record ChatChoice : Type := {
  ch_finish_reason : string;
  ch_index : Z;
  ch_message : ChatCompletionMessage
}.

Record ChatCompletion : Type := {
  chat_id : string;
  chat_choices : list ChatChoice;
  chat_created : Z;
  chat_model : string;
  chat_usage : option CompletionUsage
}.

Record Embedding : Type := {
  e_embedding : list Qc;
  e_index : Z
}.

Record CreateEmbeddingResponse : Type := {
  r_data : list Embedding;
  r_model : string;
  r_total_tokens : Z;
  r_prompt_tokens : Z
}.

(** ** Helpers imported by [hf.py] from modules that are not among the sources *)

Definition LF : string := String "010"%char EmptyString.

(** Modelled from the spec: [replace_right] of [languru.utils.common] is
    missing from the sources. [chat] calls it as
    [replace_right(message_text, old=stop_word, new="", occurrence=1)], and
    the spec describes that call as removing a stop string that appears as a
    right-aligned substring of the text, its rightmost occurrence only. The
    model covers [occurrence = 1], the only value the adapter passes. *)
Definition replace_right (source_string old new : string) : string :=
  match Text.removesuffix old source_string with
  | Some head => head +:+ new
  | None => source_string
  end.

(** Modelled from the spec: [must_list] of [languru.utils.common] is missing
    from the sources. The per-request stop sequences join the adapter's own
    list; a single text is one stop sequence and an unsupported shape is
    treated as the empty list. *)
Definition must_list (stop : StopParam) : list string :=
  match stop with
  | StopText s => [s]
  | StopSequence ws => ws
  | StopInvalid => []
  end.

(** Modelled from the spec: [remove_special_tokens] of [languru.utils.hf] is
    missing from the sources. It strips the model-specific special tokens:
    every occurrence of each special token of the tokenizer is deleted. *)
Definition remove_special_tokens (text : string) (tok : Tokenizer) : string :=
  foldl (λ text token, Text.replace_all token text) text (all_special_tokens tok).

(** Modelled from the spec: [mean_pooling] of [languru.utils.calculation] is
    missing from the sources. Masked mean pooling over the sequence axis:
    each position weighs 1 if its attention-mask entry is 1 and 0 otherwise,
    the weighted hidden vectors are summed, and the sum is divided by the sum
    of the weights. Numbers are exact rationals. *)
Module Pooling.

Definition weight (m : Z) : Qc := if m =? 1 then 1%Qc else 0%Qc.

Definition vadd (u v : list Qc) : list Qc := zip_with Qcplus u v.

Definition vscale (q : Qc) (v : list Qc) : list Qc := Qcmult q <$> v.

Definition sum_embeddings (hidden : nat) (token_embeddings : list (list Qc))
    (attention_mask : list Z) : list Qc :=
  foldr vadd (replicate hidden 0%Qc)
        (zip_with vscale (weight <$> attention_mask) token_embeddings).

Definition sum_mask (attention_mask : list Z) : Qc :=
  foldr Qcplus 0%Qc (weight <$> attention_mask).

(** One input of the batch: (sequence, hidden) and its mask row. *)
Definition pool (token_embeddings : list (list Qc)) (attention_mask : list Z)
    : list Qc :=
  let hidden := length (hd [] token_embeddings) in
  (λ x, (x / sum_mask attention_mask)%Qc)
    <$> sum_embeddings hidden token_embeddings attention_mask.

Definition mean_pooling (token_embeddings : list (list (list Qc)))
    (attention_mask : list (list Z)) : list (list Qc) :=
  zip_with pool token_embeddings attention_mask.

End Pooling.

(** ** [TransformersAction.remove_echo_text] *)

(** [if token: text = re.sub(rf"\s*{re.escape(token)}\s*", "", text)] *)
Definition strip_token (token : option string) (text : string) : string :=
  match token with
  | Some t => if Text.truthy t then Re.sub t text else text
  | None => text
  end.

(** The prompt and the completed text after the [eos_token] and [bos_token]
    substitutions, as [remove_echo_text] rebinds them. *)
Definition normalize (tok : Tokenizer) (text : string) : string :=
  strip_token (bos_token tok) (strip_token (eos_token tok) text).

(** [completed_text.replace(prompt, "", 1)] on the rebinding above: the value
    handed to [remove_special_tokens]. *)
Definition echo_removed (tok : Tokenizer) (prompt completed_text : string) : string :=
  Text.replace_first (normalize tok prompt) (normalize tok completed_text).

Definition remove_echo_text (tok : Tokenizer) (prompt completed_text : string)
    : string :=
  remove_special_tokens (echo_removed tok prompt completed_text) tok.

(** ** [TransformersAction.text_completion] *)

(** Python truthiness of an optional number: [None] and zero are false. *)
Definition truthy_int (x : option PyNumber) : bool :=
  match x with
  | Some n => truthy_number n
  | None => false
  end.

(** [a or b] *)
Definition py_or (a b : option PyNumber) : option PyNumber :=
  if truthy_int a then a else b.

(** [kwargs.get("max_tokens") or kwargs.get("max_length") or None] *)
Definition caller_max_length (kwargs : Kwargs) : option PyNumber :=
  py_or (py_or (kw_max_tokens kwargs) (kw_max_length kwargs)) None.

(** The local variable [max_length] after l.219-223: the caller's value, or
    the adapter's default when that is [None]. *)
Definition requested_max_length (self : TransformersAction) (kwargs : Kwargs)
    : option PyNumber :=
  match caller_max_length kwargs with
  | Some n => Some n
  | None => default_max_tokens self
  end.

(** The entry [kwargs["max_length"]] after l.219-223: [int(max_length)] of the
    caller's value, the adapter's default as it is otherwise. *)
Definition kwargs_max_length (self : TransformersAction) (kwargs : Kwargs)
    : option PyNumber :=
  match caller_max_length kwargs with
  | Some n => Some (PInt (int n))
  | None => default_max_tokens self
  end.

(** The budget check after tokenizing (l.252-258). The comparison reads the
    local [max_length], not the entry of [kwargs]: a prompt that already
    fills it resets the entry to twenty tokens past the prompt, with a
    warning; otherwise the entry stays. The result is the entry handed to
    [generate]. *)
Definition adjust_max_length (inputs_tokens_length : Z)
    (max_length kwargs_max_length : option PyNumber) : M (option PyNumber) :=
  match max_length with
  | Some n =>
      if ge_number inputs_tokens_length n then
        warning (MaxLengthReset inputs_tokens_length n (inputs_tokens_length + 20));;
        mret (Some (PInt (inputs_tokens_length + 20)))
      else mret kwargs_max_length
  | None => mret kwargs_max_length
  end.

(** [a or b] on optional texts: [None] and the empty text are false. *)
Definition text_or (a : option string) (b : string) : string :=
  match a with
  | Some s => if Text.truthy s then s else b
  | None => b
  end.

(** The finish reason, from the criteria when there is one and from the
    end-of-sequence check otherwise. [outputs[-1][-1]] is the last id. *)
Definition finish_reason_of (tok : Tokenizer)
    (stop_criteria : option StopAtWordsStoppingCriteria) (outputs : list Z)
    : M string :=
  let finish_reason := "length" in
  match stop_criteria with
  | Some sc => mret (text_or (get_stop_reason sc) finish_reason)
  | None =>
      match eos_token_id tok with
      | Some eos =>
          match last outputs with
          | Some t => mret (if t =? eos then "stop" else finish_reason)
          | None => raise (IndexError "index -1 is out of bounds")
          end
      | None => mret finish_reason
      end
  end.

(** [must_list(self.stop_words) + must_list(kwargs.pop("stop", ()))] *)
Definition total_stop_words (self : TransformersAction) (kwargs : Kwargs)
    : list string :=
  stop_words self ++ must_list (default (StopSequence []) (kw_stop kwargs)).

(** The stopping criteria, built only when there is at least one stop word. *)
Definition criteria_of (self : TransformersAction) (kwargs : Kwargs)
    : option StopAtWordsStoppingCriteria :=
  match total_stop_words self kwargs with
  | [] => None
  | _ :: _ =>
      Some (from_stop_words (total_stop_words self kwargs) (tokenizer self))
  end.

(** The tokenizer calls made while the criteria are built. *)
Definition criteria_calls (self : TransformersAction) (kwargs : Kwargs)
    : list Event :=
  match total_stop_words self kwargs with
  | [] => []
  | _ :: _ => from_stop_words_calls (total_stop_words self kwargs)
  end.

Definition text_completion (self : TransformersAction) (env : Env)
    (prompt model_ : string) (kwargs : Kwargs) : M Completion :=
  if negb (Text.truthy prompt) then
    raise (ValueError "The `prompt` cannot be empty")
  else
    (if String.eqb model_ (model_name self) then mret tt
     else warning (ModelMismatch model_ (model_name self)));;
    let max_length := requested_max_length self kwargs in
    let kwargs_max_length := kwargs_max_length self kwargs in
    let stop_criteria := criteria_of self kwargs in
    emit_all (criteria_calls self kwargs);;
    emit (TokenizerCall prompt);;
    let input_ids := encode (tokenizer self) prompt in
    let inputs_tokens_length := Z.of_nat (length input_ids) in
    max_length ← adjust_max_length inputs_tokens_length max_length kwargs_max_length;
    let gk := {| gk_max_length := max_length;
                 gk_stopping_criteria := stop_criteria |} in
    emit (GenerateCall input_ids gk);;
    let '(outputs, matched) := generate (model self) input_ids gk in
    let stop_criteria := record_match matched <$> stop_criteria in
    let outputs_tokens_length := Z.of_nat (length outputs) in
    emit (DecodeCall outputs);;
    let completed_text := batch_decode (tokenizer self) outputs in
    let output_text := remove_echo_text (tokenizer self) prompt completed_text in
    finish_reason ← finish_reason_of (tokenizer self) stop_criteria outputs;
    mret {| c_id := uuid4 env;
            c_choices := [ {| cc_finish_reason := finish_reason;
                              cc_index := 0;
                              cc_text := output_text |} ];
            c_created := time_end env;
            c_model := model_name self;
            c_usage := Some {| total_tokens := outputs_tokens_length;
                               prompt_tokens := inputs_tokens_length;
                               completion_tokens :=
                                 outputs_tokens_length - inputs_tokens_length |} |}.

(** ** [TransformersAction.chat] *)

(** The freeform prompt: one block per message that has content, the text
    stripped after every message and once more at the end. *)
Definition fallback_prompt (messages : list Message) : string :=
  Text.strip
    (foldl (λ prompt m,
              Text.strip
                match content m with
                | Some c => prompt +:+ LF +:+ LF +:+ role m +:+ ":" +:+ LF +:+ c
                | None => prompt
                end)
           EmptyString messages).

(** [set([message["role"] for message in messages] + [...])] *)
Definition roles (messages : list Message) : gset string :=
  list_to_set ((role <$> messages) ++ ["assistant"; "bot"; "user"; "system"]).

(** [f"\n{role}:"] *)
Definition role_stop (r : string) : string := LF +:+ r +:+ ":".

(** The [isinstance] cascade on [stop]. *)
Definition coerce_stop (stop : StopParam) : M (list string) :=
  match stop with
  | StopText s => mret [s]
  | StopSequence ws => mret ws
  | StopInvalid => warning (InvalidStopWords stop);; mret []
  end.

(** The stop list of the freeform branch: the caller's non-empty stop words,
    then one [role_stop] per role, in the iteration order of the set. *)
Definition fallback_stop (messages : list Message) (stop : StopParam)
    : M (list string) :=
  stop ← coerce_stop stop;
  mret (filter (λ s, Is_true (Text.truthy s)) stop
          ++ (role_stop <$> elements (roles messages))).

(** The messages handed to the template. *)
Definition tokenizer_chat_conversation (messages : list Message)
    : list (string * string) :=
  omap (λ m, (λ c, (role m, c)) <$> content m) messages.

(** Prompt preparation: the prompt and the value bound to [stop] after it. *)
Definition prepare_prompt (tok : Tokenizer) (messages : list Message)
    (stop : StopParam) : M (string * StopParam) :=
  match chat_template tok with
  | None =>
      let prompt := fallback_prompt messages in
      if negb (Text.truthy prompt) then
        raise (ValueError "The `prompt` cannot be empty, no content in messages")
      else
        let prompt := prompt +:+ LF +:+ LF +:+ "assistant:" +:+ LF in
        stop ← fallback_stop messages stop;
        mret (prompt, StopSequence stop)
  | Some render =>
      let conversation := tokenizer_chat_conversation messages in
      emit (TemplateCall conversation);;
      let prompt := render conversation in
      if negb (Text.truthy prompt) then
        raise (ValueError "The `prompt` cannot be empty, no content in messages")
      else mret (prompt, stop)
  end.

(** [for stop_word in stop]: the words a Python [for] yields from [stop]. *)
Definition iter_stop (stop : StopParam) : M (list string) :=
  match stop with
  | StopText s => mret (Text.chars s)
  | StopSequence ws => mret ws
  | StopInvalid => raise (TypeError "object is not iterable")
  end.

(** The inner loop over the stop words: the first word whose removal changes
    the text wins and ends the loop. *)
Fixpoint trim_stop (stop : list string) (message_text : string) : string :=
  match stop with
  | [] => message_text
  | stop_word :: stop' =>
      let modified_message_text := replace_right message_text stop_word "" in
      if String.eqb modified_message_text message_text
      then trim_stop stop' message_text
      else modified_message_text
  end.

(** The outer loop over the choices of the completion. *)
Fixpoint convert_choices (stop : StopParam) (choices : list CompletionChoice)
    : M (list ChatChoice) :=
  match choices with
  | [] => mret []
  | c :: choices' =>
      stop_words ← iter_stop stop;
      let message_text := trim_stop stop_words (cc_text c) in
      rest ← convert_choices stop choices';
      mret ({| ch_finish_reason := cc_finish_reason c;
               ch_index := cc_index c;
               ch_message := {| m_role := "assistant";
                                m_content := message_text |} |} :: rest)
  end.

Definition chat (self : TransformersAction) (env : Env)
    (messages : list Message) (model_ : string) (kwargs : Kwargs)
    : M ChatCompletion :=
  match messages with
  | [] => raise (ValueError "The `messages` cannot be empty")
  | _ :: _ =>
      let stop := default (StopSequence []) (kw_stop kwargs) in
      '(prompt, stop) ← prepare_prompt (tokenizer self) messages stop;
      completion_res ←
        text_completion self env prompt model_
          {| kw_max_tokens := kw_max_tokens kwargs;
             kw_max_length := kw_max_length kwargs;
             kw_stop := Some stop |};
      choices ← convert_choices stop (c_choices completion_res);
      mret {| chat_id := c_id completion_res;
              chat_choices := choices;
              chat_created := c_created completion_res;
              chat_model := c_model completion_res;
              chat_usage := c_usage completion_res |}
  end.

(** ** [TransformersAction.embeddings] *)

(** [input_ids.shape[1]]: the padded length of the batch. *)
Definition batch_width (input_ids : list (list Z)) : Z :=
  Z.of_nat (length (hd [] input_ids)).

Definition embeddings (self : TransformersAction) (input : list string)
    : M CreateEmbeddingResponse :=
  emit (BatchTokenizerCall input);;
  let '(input_ids, attention_mask) := encode_batch (tokenizer self) input in
  let inputs_tokens_length := batch_width input_ids in
  emit (ForwardCall input_ids attention_mask);;
  let hidden_states := forward (model self) input_ids attention_mask in
  let embeddings := Pooling.mean_pooling hidden_states attention_mask in
  mret {| r_data := imap (λ idx emb, {| e_embedding := emb;
                                        e_index := Z.of_nat idx |}) embeddings;
          r_model := model_name self;
          r_total_tokens := inputs_tokens_length;
          r_prompt_tokens := inputs_tokens_length |}.

(** ** The rest of the adapter: model name, health, quantization *)

(** [(os.getenv("HF_MODEL_NAME") or os.getenv("MODEL_NAME")) or ""] *)
Definition MODEL_NAME (hf_model_name model_name_env : option string) : string :=
  text_or hf_model_name (text_or model_name_env "").

(** ["/" in s] *)
Fixpoint has_slash (s : string) : bool :=
  match s with
  | String c s' => Ascii.eqb c "/" || has_slash s'
  | EmptyString => false
  end.

(** [s.split("/")[-1]]: what follows the last slash, the whole text when
    there is none. *)
Fixpoint last_segment (s : string) : string :=
  match s with
  | String c s' =>
      if has_slash s' then last_segment s'
      else if Ascii.eqb c "/" then s' else s
  | EmptyString => EmptyString
  end.

(** The class attribute [model_deploys]; a [ModelDeploy] is the pair of a
    deploy name and the model name it stands for. *)
Definition model_deploys (name : string) : list (string * string) :=
  [(name, name); (last_segment name, name)].

(** [read_model_name]. [should_str_or_none] is not among the sources; the
    second argument is what it returns for [kwargs.get("model_name")], a
    text or [None]. *)
Definition read_model_name (class_model_name : string)
    (model_name_kwarg : option string) : M string :=
  let model_name := text_or model_name_kwarg class_model_name in
  if negb (Text.truthy model_name) then
    raise (ValueError "The `model_name` cannot be empty")
  else mret model_name.

(** [health], on the element counts [p.numel()] of the model's parameters. *)
Definition health (numels : list Z) : bool :=
  let param_count := foldl Z.add 0 numels in
  if param_count <=? 0 then false else true.

Module Quantization.

(** The values the quantization settings take. *)
Inductive PyVal : Type :=
  | VNone
  | VBool (b : bool)
  | VFloat (q : Qc)
  | VText (s : string)
  | VSeq (ws : list string).

(** [bool(v)] *)
Definition truthy (v : PyVal) : bool :=
  match v with
  | VNone => false
  | VBool b => b
  | VFloat q => if Qc_eq_dec q 0%Qc then false else true
  | VText s => Text.truthy s
  | VSeq ws => match ws with [] => false | _ :: _ => true end
  end.

(** The class attributes of the adapter. *)
Record Attrs : Type := {
  use_quantization : bool;
  load_in_8bit : PyVal;
  load_in_4bit : PyVal;
  llm_int8_threshold : PyVal;
  llm_int8_skip_modules : PyVal;
  llm_int8_enable_fp32_cpu_offload : PyVal;
  llm_int8_has_fp16_weight : PyVal;
  bnb_4bit_compute_dtype : PyVal;
  bnb_4bit_quant_type : PyVal;
  bnb_4bit_use_double_quant : PyVal
}.

(** The settings, in the order [load_quantization_config] goes through them. *)
Definition keys : list string :=
  ["load_in_8bit"; "load_in_4bit"; "llm_int8_threshold";
   "llm_int8_skip_modules"; "llm_int8_enable_fp32_cpu_offload";
   "llm_int8_has_fp16_weight"; "bnb_4bit_compute_dtype";
   "bnb_4bit_quant_type"; "bnb_4bit_use_double_quant"].

(** [getattr(self, key)] for one of the settings. *)
Definition attr (self : Attrs) (key : string) : PyVal :=
  if String.eqb key "load_in_8bit" then load_in_8bit self
  else if String.eqb key "load_in_4bit" then load_in_4bit self
  else if String.eqb key "llm_int8_threshold" then llm_int8_threshold self
  else if String.eqb key "llm_int8_skip_modules" then llm_int8_skip_modules self
  else if String.eqb key "llm_int8_enable_fp32_cpu_offload"
       then llm_int8_enable_fp32_cpu_offload self
  else if String.eqb key "llm_int8_has_fp16_weight" then llm_int8_has_fp16_weight self
  else if String.eqb key "bnb_4bit_compute_dtype" then bnb_4bit_compute_dtype self
  else if String.eqb key "bnb_4bit_quant_type" then bnb_4bit_quant_type self
  else if String.eqb key "bnb_4bit_use_double_quant" then bnb_4bit_use_double_quant self
  else VNone.

(** [kwargs[key] if key in kwargs else self.key] *)
Definition chosen (self : Attrs) (kwargs : gmap string PyVal) (key : string)
    : PyVal :=
  match kwargs !! key with
  | Some v => v
  | None => attr self key
  end.

(** [if value is not None: params[key] = value] *)
Definition set_param (self : Attrs) (kwargs : gmap string PyVal)
    (params : gmap string PyVal) (key : string) : gmap string PyVal :=
  match chosen self kwargs key with
  | VNone => params
  | v => <[key := v]> params
  end.

(** [load_quantization_config]: the keyword arguments handed to
    [BitsAndBytesConfig], or [None] without quantization. The source writes
    the nine settings out one after the other; they are the fold below. *)
Definition load_quantization_config (self : Attrs) (kwargs : gmap string PyVal)
    : option (gmap string PyVal) :=
  let use_quantization :=
    truthy (default VNone (kwargs !! "use_quantization")) || use_quantization self in
  if use_quantization then Some (foldl (set_param self kwargs) ∅ keys)
  else None.

End Quantization.

(** ** The embeddings endpoint that calls the adapter
    ([src/languru/server/api/v1/embeddings.py]) *)

Module Server.

(** [settings.APP_TYPE]: the two served kinds, or any other value, by the
    text it prints as (a false value prints as the empty text). *)
Inductive AppType : Type :=
  | llm
  | agent
  | other (name : string).

Record EmbeddingRequest : Type := {
  er_input : list string;
  er_model : string
}.

(** How a request ends: a response, an [HTTPException], or an exception
    that the handler does not catch. *)
Inductive Outcome : Type :=
  | Returned (response : CreateEmbeddingResponse)
  | HTTPException (status_code : Z) (detail : string)
  | Uncaught (e : PyError).

Inductive ServerEvent : Type :=
  | Adapter (ev : Event)
  | Post (url : string) (request : EmbeddingRequest).

(** What the handler finds in the application: the action with its
    [get_model_name] (of [ActionBase], not among the sources; [inr] is the
    message of a [ModelNotFound]), the models that discovery lists for an
    id, the draw of [random.choice] as an index, the URL rewriting of
    [yarl] and the HTTP client. *)
Record App : Type := {
  action : TransformersAction;
  get_model_name : string → string + string;
  list_models : string → list string;
  draw : nat;
  with_path : string → string → string;
  post : string → EmbeddingRequest → result CreateEmbeddingResponse
}.

Definition handle_llm (app : App) (embedding_request : EmbeddingRequest)
    : Outcome * list ServerEvent :=
  match get_model_name app (er_model embedding_request) with
  | inr e => (HTTPException 404 e, [])
  | inl name =>
      let embedding_request := {| er_input := er_input embedding_request;
                                  er_model := name |} in
      match embeddings (action app) (er_input embedding_request) with
      | (Ok embedding, t) => (Returned embedding, Adapter <$> t)
      | (Raise e, t) => (Uncaught e, Adapter <$> t)
      end
  end.

Definition handle_agent (app : App) (embedding_request : EmbeddingRequest)
    : Outcome * list ServerEvent :=
  let models := list_models app (er_model embedding_request) in
  match models with
  | [] =>
      (HTTPException 404
         ("Model '" +:+ er_model embedding_request +:+ "' not found"), [])
  | first :: _ =>
      let owned_by :=
        default first (models !! (draw app `mod` length models)%nat) in
      let url := with_path app owned_by "/embeddings" in
      match post app url embedding_request with
      | Ok response => (Returned response, [Post url embedding_request])
      | Raise e => (Uncaught e, [Post url embedding_request])
      end
  end.

Definition handle_request (app : App) (app_type : AppType)
    (embedding_request : EmbeddingRequest) : Outcome * list ServerEvent :=
  match app_type with
  | llm => handle_llm app embedding_request
  | agent => handle_agent app embedding_request
  | other name =>
      (HTTPException 500
         (if Text.truthy name then "Unknown app server type: " +:+ name
          else "App server type not implemented"), [])
  end.

End Server.

(** [token in text] *)
Fixpoint str_contains (token s : string) : bool :=
  match Text.removeprefix token s with
  | Some _ => true
  | None =>
      match s with
      | String _ s' => str_contains token s'
      | EmptyString => false
      end
  end.

(** [m.get("content") is not None] *)
Definition has_content (m : Message) : bool :=
  match content m with
  | Some _ => true
  | None => false
  end.

(** ** Derived forms used in the statements below *)

(** A choice of the completion as [chat] reshapes it. *)
Definition chat_choice (stop_words : list string) (c : CompletionChoice)
    : ChatChoice :=
  {| ch_finish_reason := cc_finish_reason c;
     ch_index := cc_index c;
     ch_message := {| m_role := "assistant";
                      m_content := trim_stop stop_words (cc_text c) |} |}.

(** The record a completion returns for a given finish reason. *)
Definition completion_record (self : TransformersAction) (env : Env)
    (prompt : string) (outputs : list Z) (finish_reason : string) : Completion :=
  let inputs_tokens_length := Z.of_nat (length (encode (tokenizer self) prompt)) in
  let outputs_tokens_length := Z.of_nat (length outputs) in
  {| c_id := uuid4 env;
     c_choices :=
       [ {| cc_finish_reason := finish_reason;
            cc_index := 0;
            cc_text := remove_echo_text (tokenizer self) prompt
                         (batch_decode (tokenizer self) outputs) |} ];
     c_created := time_end env;
     c_model := model_name self;
     c_usage := Some {| total_tokens := outputs_tokens_length;
                        prompt_tokens := inputs_tokens_length;
                        completion_tokens :=
                          outputs_tokens_length - inputs_tokens_length |} |}.

(** Every character of the text is whitespace. *)
Fixpoint all_space (s : string) : bool :=
  match s with
  | String c s' => Text.isspace c && all_space s'
  | EmptyString => true
  end.

(** One round of the loop over the messages. *)
Definition prompt_step (prompt : string) (m : Message) : string :=
  Text.strip
    match content m with
    | Some c => prompt +:+ LF +:+ LF +:+ role m +:+ ":" +:+ LF +:+ c
    | None => prompt
    end.

(** [token] occurs in [s]. *)
Definition occurs (token s : string) : Prop := ∃ a b, s = a +:+ token +:+ b.

(** A value that Python's [or] skips: [None] or the empty text. *)
Definition falsy (o : option string) : Prop := o = None ∨ o = Some "".

(** The completion text as the specification words it, to compare with
    [remove_echo_text]: the original prompt is removed once, at its leftmost
    occurrence, from the decoded output, and only then are the special tokens
    stripped. *)
Definition remove_echo_text_as_stated (tok : Tokenizer)
    (prompt completed_text : string) : string :=
  remove_special_tokens (Text.replace_first prompt completed_text) tok.

(** ** A small adapter to run the definitions on

    A character-level tokenizer (a character is its code; id 0 is the
    end-of-sequence token, written [</s>]) and a model that appends a fixed
    script to its input and reports a fixed verdict of the stopping hook. *)

Module Demo.

Definition char_encode (s : string) : list Z :=
  (λ c, Z.of_nat (nat_of_ascii c)) <$> String.list_ascii_of_string s.

Definition char_decode (ids : list Z) : string :=
  foldr (λ i acc, if i =? 0 then "</s>" +:+ acc
                  else String (ascii_of_nat (Z.to_nat i)) acc)
        EmptyString ids.

(** Every text of the batch, padded with id 0 to [width], and its mask. *)
Definition padded_batch (width : nat) (input : list string)
    : list (list Z) * list (list Z) :=
  ((λ s, char_encode s ++ replicate (width - length (char_encode s)) 0) <$> input,
   (λ s, replicate (length (char_encode s)) 1
           ++ replicate (width - length (char_encode s)) 0) <$> input).

Definition tok (template : option (list (string * string) → string))
    : Tokenizer :=
  {| chat_template := template;
     eos_token := Some "</s>";
     bos_token := None;
     eos_token_id := Some 0;
     all_special_tokens := ["</s>"];
     encode := char_encode;
     batch_decode := char_decode;
     encode_batch := padded_batch 4 |}.

(** A tokenizer whose decoding also writes a beginning-of-sequence token. *)
Definition tok_bos : Tokenizer :=
  {| chat_template := None;
     eos_token := Some "</s>";
     bos_token := Some "<s>";
     eos_token_id := Some 0;
     all_special_tokens := ["<s>"; "</s>"];
     encode := char_encode;
     batch_decode := λ ids, "<s> " +:+ char_decode ids;
     encode_batch := padded_batch 4 |}.

(** An integer as a hidden-state entry. *)
Definition q (z : Z) : Qc := Q2Qc (inject_Z z).

Definition scripted (script : list Z) (matched : option string) : Model :=
  {| generate := λ ids _, (ids ++ script, matched);
     forward := λ (input_ids : list (list Z)) _,
       (λ row : list Z, (λ i, [q i; q 1]) <$> row) <$> input_ids |}.

Definition action (template : option (list (string * string) → string))
    (script : list Z) (matched : option string) : TransformersAction :=
  {| model_name := "demo";
     stop_words := [];
     default_max_tokens := Some (PInt 800);
     tokenizer := tok template;
     model := scripted script matched |}.

(** A model whose [generate] returns the new ids alone, as an
    encoder-decoder model does. *)
Definition seq2seq (script : list Z) : Model :=
  {| generate := λ _ _, (script, None);
     forward := λ (input_ids : list (list Z)) _,
       (λ row : list Z, (λ i, [q i; q 1]) <$> row) <$> input_ids |}.

Definition seq2seq_action (script : list Z) : TransformersAction :=
  {| model_name := "demo";
     stop_words := [];
     default_max_tokens := Some (PInt 800);
     tokenizer := tok None;
     model := seq2seq script |}.

Definition env : Env := {| uuid4 := "0000"; time_begin := 1; time_end := 2 |}.

Definition kwargs (max_length : option PyNumber) (stop : option StopParam)
    : Kwargs :=
  {| kw_max_tokens := None; kw_max_length := max_length; kw_stop := stop |}.

Definition user (text : string) : Message :=
  {| role := "user"; content := Some text |}.

End Demo.

(** * Properties *)

(** Membership of an event in a trace given as appended segments. *)
Ltac in_trace :=
  repeat first [rewrite elem_of_app | rewrite elem_of_cons | rewrite elem_of_nil];
  intuition (discriminate || auto).

(** ** Text lemmas *)

Section text_lemmas.

Lemma app_cons (c : ascii) (s t : string) :
  String c s +:+ t = String c (s +:+ t).
Proof. reflexivity. Qed.

Lemma app_empty_l (s : string) : "" +:+ s = s.
Proof. reflexivity. Qed.

Lemma app_empty_r (s : string) : s +:+ "" = s.
Proof. induction s as [|c s IH]; [done|]. by rewrite app_cons, IH. Qed.

Lemma app_length (s t : string) :
  String.length (s +:+ t) = (String.length s + String.length t)%nat.
Proof. induction s as [|c s IH]; [done|]. rewrite app_cons. simpl. by rewrite IH. Qed.

Lemma app_self_r (h s : string) : s = h +:+ s → h = "".
Proof.
  intros E. apply (f_equal String.length) in E. rewrite app_length in E.
  destruct h; [done|simpl in E; lia].
Qed.

Lemma app_assoc (s t u : string) : (s +:+ t) +:+ u = s +:+ (t +:+ u).
Proof. induction s as [|c s IH]; [done|]. by rewrite !app_cons, IH. Qed.

Lemma removeprefix_app (p s : string) : Text.removeprefix p (p +:+ s) = Some s.
Proof.
  induction p as [|c p IH]; [by destruct s|].
  rewrite app_cons. simpl. by rewrite Ascii.eqb_refl.
Qed.

Lemma removeprefix_Some (p s rest : string) :
  Text.removeprefix p s = Some rest → s = p +:+ rest.
Proof.
  revert s. induction p as [|c p IH]; intros s; simpl.
  - by destruct s; intros [= <-].
  - destruct s as [|b s]; [done|].
    destruct (Ascii.eqb_spec c b) as [->|]; [|done].
    intros H. by rewrite app_cons, (IH _ H).
Qed.

Lemma app_inj_l (h h' w : string) : h +:+ w = h' +:+ w → h = h'.
Proof.
  revert h'. induction h as [|c h IH]; intros h' E.
  - rewrite app_empty_l in E. symmetry. by apply (app_self_r _ w).
  - destruct h' as [|b h'].
    + rewrite app_empty_l in E. symmetry in E. by apply app_self_r in E.
    + rewrite !app_cons in E. injection E as -> E. by rewrite (IH _ E).
Qed.

Lemma removesuffix_unfold (w s : string) :
  Text.removesuffix w s =
  if String.eqb s w then Some ""
  else match s with
       | EmptyString => None
       | String c s' => String c <$> Text.removesuffix w s'
       end.
Proof. by destruct s. Qed.

Lemma removesuffix_spec (w s head : string) :
  Text.removesuffix w s = Some head ↔ s = head +:+ w.
Proof.
  revert head. induction s as [|c s IH]; intros head;
    rewrite removesuffix_unfold.
  - destruct (String.eqb_spec "" w) as [<-|Hne].
    + split; [by intros [= <-]|]. intros E. by rewrite (app_self_r _ _ E).
    + split; [done|]. destruct head; [by rewrite app_empty_l|by rewrite app_cons].
  - destruct (String.eqb_spec (String c s) w) as [<-|Hne].
    + split; [by intros [= <-]|]. intros E. by rewrite (app_self_r _ _ E).
    + destruct (Text.removesuffix w s) as [h'|] eqn:Hs; simpl.
      * pose proof (proj1 (IH h') eq_refl) as Es. split.
        { intros [= <-]. by rewrite app_cons, <- Es. }
        destruct head as [|b head]; [by rewrite app_empty_l|].
        rewrite app_cons. intros [= -> E]. rewrite Es in E.
        by apply app_inj_l in E as ->.
      * split; [done|].
        destruct head as [|b head]; [by rewrite app_empty_l|].
        rewrite app_cons. intros [= -> E]. by apply IH in E.
Qed.

Lemma replace_right_suffix (head w : string) :
  replace_right (head +:+ w) w "" = head.
Proof.
  unfold replace_right.
  destruct (Text.removesuffix w (head +:+ w)) as [h|] eqn:H.
  - apply removesuffix_spec in H. rewrite app_empty_r.
    symmetry. by apply (app_inj_l _ _ w).
  - pose proof (proj2 (removesuffix_spec w (head +:+ w) head) eq_refl). congruence.
Qed.

(** [replace_right] leaves the text as it is exactly when the word is empty
    or the text does not end with it. *)
Lemma replace_right_unchanged (text w : string) :
  replace_right text w "" = text ↔ w = "" ∨ ¬ Text.ends_with text w.
Proof.
  split.
  - intros E. destruct w as [|c w]; [by left|right].
    intros [head ->]. rewrite replace_right_suffix in E.
    apply (f_equal String.length) in E. rewrite app_length in E. simpl in E. lia.
  - intros [->|Hn].
    + rewrite <- (app_empty_r text) at 1. by rewrite replace_right_suffix.
    + unfold replace_right.
      destruct (Text.removesuffix w text) as [h|] eqn:H; [|done].
      apply removesuffix_spec in H. destruct Hn. by exists h.
Qed.

End text_lemmas.

(** ** The stop-trimming loop of [chat] *)

Section trimming.

Implicit Types (stop : list string) (text w : string).

(** The loop returns its input exactly when no non-empty stop word is at the
    end of the text. *)
Lemma trim_stop_fixed stop text :
  trim_stop stop text = text ↔
  ∀ w, w ∈ stop → w ≠ "" → ¬ Text.ends_with text w.
Proof.
  induction stop as [|v stop IH]; simpl.
  - split; [|done]. intros _ w Hw. by apply not_elem_of_nil in Hw.
  - destruct (String.eqb_spec (replace_right text v "") text) as [E|E].
    + rewrite IH. apply replace_right_unchanged in E. split.
      * intros H w [->|Hw]%elem_of_cons Hne; [|by apply H].
        by destruct E.
      * intros H w Hw. apply H. by right.
    + split; [done|]. intros H. destruct E.
      apply replace_right_unchanged.
      destruct v as [|c v]; [by left|right]. apply H; [by left|done].
Qed.

Lemma trim_stop_cases stop text :
  (trim_stop stop text = text ∧
   ∀ w, w ∈ stop → w ≠ "" → ¬ Text.ends_with text w)
  ∨ (∃ before w after head,
       stop = before ++ w :: after ∧ w ≠ "" ∧ text = head +:+ w ∧
       trim_stop stop text = head ∧
       ∀ v, v ∈ before → v = "" ∨ ¬ Text.ends_with text v).
Proof.
  induction stop as [|v stop IH]; simpl.
  - left. split; [done|]. intros w Hw. by apply not_elem_of_nil in Hw.
  - destruct (String.eqb_spec (replace_right text v "") text) as [E|E].
    + apply replace_right_unchanged in E.
      destruct IH as [[Ht Hn]|(before & w & after & head & -> & Hw & -> & Ht & Hb)].
      * left. split; [done|].
        intros w [->|Hw]%elem_of_cons Hne; [by destruct E|by apply Hn].
      * right. exists (v :: before), w, after, head. repeat split; try done.
        intros u [->|Hu]%elem_of_cons; [done|by apply Hb].
    + right. unfold replace_right in *.
      destruct (Text.removesuffix v text) as [head|] eqn:H; [|done].
      apply removesuffix_spec in H. rewrite app_empty_r in *.
      exists [], v, stop, head. repeat split; try done.
      * intros ->. rewrite app_empty_r in H. by subst.
      * intros u Hu. by apply not_elem_of_nil in Hu.
Qed.

End trimming.


(** C6, as stated, fails: a text that ends with two stop words loses one of
    them at each application. *)
Lemma trim_stop_not_idempotent :
  trim_stop ["#"] (trim_stop ["#"] "hi##") ≠ trim_stop ["#"] "hi##".
Proof. vm_compute. discriminate. Qed.

(** C6, amended. One application removes at most one stop word: its result
    is the text itself, or the text without one non-empty stop word at its
    end. Applying the trim a second time changes nothing exactly when the
    once-trimmed text no longer ends with a non-empty stop word, which is so
    in particular when the first application changed nothing. *)
Theorem trim_stop_twice (stop : list string) (message_text : string) :
  (trim_stop stop message_text = message_text
   ∨ ∃ w, w ∈ stop ∧ w ≠ "" ∧
          message_text = trim_stop stop message_text +:+ w)
  ∧ (trim_stop stop (trim_stop stop message_text) = trim_stop stop message_text
     ↔ ∀ w, w ∈ stop → w ≠ "" →
            ¬ Text.ends_with (trim_stop stop message_text) w)
  ∧ (trim_stop stop message_text = message_text →
     trim_stop stop (trim_stop stop message_text) = trim_stop stop message_text).
Proof.
  split; [|split; [apply trim_stop_fixed|intros E; rewrite E; exact E]].
  destruct (trim_stop_cases stop message_text)
    as [[E _]|(before & w & after & head & -> & Hw & -> & -> & _)].
  - by left.
  - right. exists w. split; [|done].
    apply elem_of_app. right. by left.
Qed.

(** ** The call monad *)

Section monad_lemmas.

Context {A B : Type}.

Lemma bind_Ok_inv (m : M A) (f : A → M B) (b : B) (t : list Event) :
  m ≫= f = (Ok b, t) →
  ∃ a t1 t2, m = (Ok a, t1) ∧ f a = (Ok b, t2) ∧ t = t1 ++ t2.
Proof.
  unfold mbind, M_bind. destruct m as [[a|e] t1]; [|done].
  destruct (f a) as [r t2] eqn:Hf. intros [= -> <-]. by exists a, t1, t2.
Qed.

Lemma bind_Ok (m : M A) (f : A → M B) (a : A) (t1 : list Event) :
  m = (Ok a, t1) → m ≫= f = ((f a).1, t1 ++ (f a).2).
Proof. intros ->. unfold mbind, M_bind. by destruct (f a). Qed.

Lemma bind_Raise (m : M A) (f : A → M B) (e : PyError) (t1 : list Event) :
  m = (Raise e, t1) → m ≫= f = (Raise e, t1).
Proof. by intros ->. Qed.

End monad_lemmas.

(** ** What [chat] returns *)

Section chat_lemmas.

Lemma convert_choices_ok stop stop_words choices :
  iter_stop stop = (Ok stop_words, []) →
  convert_choices stop choices = (Ok (chat_choice stop_words <$> choices), []).
Proof.
  intros Hi. induction choices as [|c choices IH]; [done|].
  simpl. rewrite Hi, IH. reflexivity.
Qed.

Lemma iter_stop_trace stop r t : iter_stop stop = (r, t) → t = [].
Proof. destruct stop; by intros [= _ <-]. Qed.

Lemma convert_choices_inv stop c choices res t :
  convert_choices stop (c :: choices) = (Ok res, t) →
  ∃ stop_words, iter_stop stop = (Ok stop_words, []) ∧
                res = chat_choice stop_words <$> (c :: choices) ∧ t = [].
Proof.
  intros H. destruct (iter_stop stop) as [[ws|e] t0] eqn:Hi.
  - pose proof (iter_stop_trace _ _ _ Hi) as ->.
    rewrite (convert_choices_ok _ _ _ Hi) in H. injection H as <- <-.
    by exists ws.
  - simpl in H. by rewrite Hi in H.
Qed.

(** A completion that returns has exactly one choice. *)
Lemma text_completion_one_choice self env prompt model_ kwargs res t :
  text_completion self env prompt model_ kwargs = (Ok res, t) →
  ∃ c, c_choices res = [c].
Proof.
  unfold text_completion. destruct (negb (Text.truthy prompt)); [done|].
  intros H.
  apply bind_Ok_inv in H as (? & ? & ? & _ & H & _).
  apply bind_Ok_inv in H as (? & ? & ? & _ & H & _).
  apply bind_Ok_inv in H as (? & ? & ? & _ & H & _).
  apply bind_Ok_inv in H as (ml & ? & ? & _ & H & _).
  apply bind_Ok_inv in H as (? & ? & ? & _ & H & _).
  destruct (generate _ _ _) as [outputs matched].
  apply bind_Ok_inv in H as (? & ? & ? & _ & H & _).
  apply bind_Ok_inv in H as (fr & ? & ? & _ & H & _).
  injection H as Hr _. rewrite <- Hr. by eexists.
Qed.

Lemma chat_inv self env messages model_ kwargs res t :
  chat self env messages model_ kwargs = (Ok res, t) →
  ∃ prompt stop completion stop_words t1 t2,
    prepare_prompt (tokenizer self) messages
      (default (StopSequence []) (kw_stop kwargs)) = (Ok (prompt, stop), t1) ∧
    text_completion self env prompt model_
      {| kw_max_tokens := kw_max_tokens kwargs;
         kw_max_length := kw_max_length kwargs;
         kw_stop := Some stop |} = (Ok completion, t2) ∧
    iter_stop stop = (Ok stop_words, []) ∧
    chat_choices res = chat_choice stop_words <$> c_choices completion ∧
    t = t1 ++ t2.
Proof.
  unfold chat. destruct messages as [|m messages]; [done|]. intros H.
  apply bind_Ok_inv in H as ([prompt stop] & t1 & t' & Hp & H & ->).
  apply bind_Ok_inv in H as (completion & t2 & t'' & Hc & H & ->).
  apply bind_Ok_inv in H as (choices & t3 & t4 & Hch & H & ->).
  injection H as <- <-.
  destruct (text_completion_one_choice _ _ _ _ _ _ _ Hc) as [c Ec].
  rewrite Ec in Hch.
  apply convert_choices_inv in Hch as (ws & Hi & -> & ->).
  exists prompt, stop, completion, ws, t1, t2. rewrite Ec.
  repeat split; try done. by rewrite !app_nil_r.
Qed.

End chat_lemmas.

(** What [chat] puts in a message is the completion text after this loop,
    run over the words that iterating [stop] yields. *)
Lemma chat_content_is_trimmed self env messages model_ kwargs res t :
  chat self env messages model_ kwargs = (Ok res, t) →
  ∃ stop_words completion_choices,
    length completion_choices = length (chat_choices res) ∧
    (m_content ∘ ch_message) <$> chat_choices res
      = (trim_stop stop_words ∘ cc_text) <$> completion_choices.
Proof.
  intros H.
  apply chat_inv in H as (prompt & stop & completion & ws & t1 & t2 & _ & _ & _ & Hr & _).
  exists ws, (c_choices completion). rewrite Hr, length_fmap. split; [done|].
  by rewrite <- list_fmap_compose.
Qed.

(** ** What [text_completion] does *)

Section completion_lemmas.

Lemma adjust_max_length_Ok (len : Z) (max_length passed : option PyNumber) :
  ∃ m t, adjust_max_length len max_length passed = (Ok m, t).
Proof.
  destruct max_length as [n|]; simpl; [|by eexists _, _].
  destruct (ge_number len n); by eexists _, _.
Qed.

(** [inputs_tokens_length >= max_length] as an order on the rationals. *)
Lemma ge_number_spec (len : Z) (x : PyNumber) :
  ge_number len x = true ↔ (number_value x <= inject_Z len)%Q.
Proof.
  destruct x as [z|q]; simpl.
  - rewrite Z.leb_le, <- Zle_Qle. reflexivity.
  - apply Qle_bool_iff.
Qed.

Lemma ge_number_false (len : Z) (x : PyNumber) :
  ge_number len x = false ↔ (inject_Z len < number_value x)%Q.
Proof.
  rewrite <- not_true_iff_false, ge_number_spec. split.
  - apply Qnot_le_lt.
  - apply Qlt_not_le.
Qed.

(** Truncation keeps a number that exceeds a length at or above it. *)
Lemma int_above (len : Z) (x : PyNumber) :
  0 <= len → (inject_Z len < number_value x)%Q →
  len <= int x ∧ (∀ z : Z, x = PInt z → len < int x).
Proof.
  intros H0 Hlt. destruct x as [z|q]; simpl in *.
  - rewrite <- Zlt_Qlt in Hlt. split; [lia|]. intros; lia.
  - split; [|intros z [=]].
    destruct q as [num den]. unfold Qlt, inject_Z in Hlt. simpl in *.
    rewrite Z.mul_1_r in Hlt.
    assert (0 <= num) as Hnum by nia.
    rewrite Z.quot_div_nonneg by lia.
    apply Z.div_le_lower_bound; lia.
Qed.

Lemma criteria_calls_eq self kwargs :
  criteria_calls self kwargs = TokenizerCall <$> total_stop_words self kwargs.
Proof. unfold criteria_calls. by destruct (total_stop_words self kwargs). Qed.

Lemma finish_reason_of_trace tok sc outputs :
  (finish_reason_of tok sc outputs).2 = [].
Proof.
  unfold finish_reason_of. destruct sc; [done|].
  destruct (eos_token_id tok); [|done]. by destruct (last outputs).
Qed.

(** The calls a completion makes on a non-empty prompt, whatever it
    returns: the tokenizer on the stop words and on the prompt, generation
    with the adjusted budget, decoding. *)
Lemma text_completion_unfold self env prompt model_ kwargs :
  Text.truthy prompt = true →
  let input_ids := encode (tokenizer self) prompt in
  ∃ max_length t_adjust,
    adjust_max_length (Z.of_nat (length input_ids))
      (requested_max_length self kwargs) (kwargs_max_length self kwargs)
      = (Ok max_length, t_adjust) ∧
    let gk := {| gk_max_length := max_length;
                 gk_stopping_criteria := criteria_of self kwargs |} in
    let outputs := (generate (model self) input_ids gk).1 in
    let matched := (generate (model self) input_ids gk).2 in
    text_completion self env prompt model_ kwargs =
    (match (finish_reason_of (tokenizer self)
              (record_match matched <$> criteria_of self kwargs) outputs).1 with
     | Ok finish_reason =>
         Ok (completion_record self env prompt outputs finish_reason)
     | Raise e => Raise e
     end,
     (if String.eqb model_ (model_name self) then []
      else [Log (ModelMismatch model_ (model_name self))])
     ++ criteria_calls self kwargs
     ++ [TokenizerCall prompt] ++ t_adjust
     ++ [GenerateCall input_ids gk; DecodeCall outputs]).
Proof.
  intros Hp. cbv zeta.
  destruct (adjust_max_length_Ok (Z.of_nat (length (encode (tokenizer self) prompt)))
              (requested_max_length self kwargs) (kwargs_max_length self kwargs))
    as (ml & ta & Ha).
  exists ml, ta. split; [done|].
  unfold text_completion, completion_record.
  rewrite Hp. simpl negb. cbv iota.
  unfold mbind, M_bind, emit, emit_all, warning, mret, M_ret. cbv beta iota zeta.
  rewrite Ha. cbv beta iota zeta.
  destruct (generate (model self) _ _) as [outputs matched] eqn:Hg.
  simpl fst. simpl snd. cbv beta iota zeta.
  pose proof (finish_reason_of_trace (tokenizer self)
                (record_match matched <$> criteria_of self kwargs) outputs) as Ht.
  destruct (finish_reason_of (tokenizer self) _ outputs) as [[fr|e] tf] eqn:Hf;
    simpl in Ht; subst tf;
    destruct (String.eqb model_ (model_name self));
    cbv beta iota zeta; simpl; rewrite ?app_nil_r; reflexivity.
Qed.

End completion_lemmas.

(** C8. [chat] on an empty message sequence and [text_completion] on an empty
    prompt raise [ValueError] at once: the trace is empty, so neither the
    tokenizer nor the model has been called, and nothing is attempted again. *)
Theorem empty_input_raises_immediately (self : TransformersAction) (env : Env)
    (model_ : string) (kwargs : Kwargs) :
  chat self env [] model_ kwargs
    = (Raise (ValueError "The `messages` cannot be empty"), [])
  ∧ text_completion self env "" model_ kwargs
    = (Raise (ValueError "The `prompt` cannot be empty"), []).
Proof. split; reflexivity. Qed.

(** ** The generation budget *)

(** C3, as stated, fails: a prompt of two tokens with [max_length = 3] is
    below the limit, the budget stays 3, and one token of room is left. *)
Lemma budget_can_leave_one_token :
  (text_completion (Demo.action None [33] None) Demo.env "Hi" "demo"
     (Demo.kwargs (Some (PInt 3)) None)).2
  = [TokenizerCall "Hi";
     GenerateCall [72; 105] {| gk_max_length := Some (PInt 3);
                               gk_stopping_criteria := None |};
     DecodeCall [72; 105; 33]]
  ∧ 3 - Z.of_nat (length (Demo.char_encode "Hi")) < 20.
Proof. split; [vm_compute; reflexivity|vm_compute; reflexivity]. Qed.

(** A requested budget that is not an integer: [int(2.7)] is what [generate]
    is given, while the comparison reads 2.7, so a prompt of two tokens is
    not widened and is left without room. *)
Example budget_of_a_float_request :
  (text_completion (Demo.action None [33] None) Demo.env "Hi" "demo"
     (Demo.kwargs (Some (PFloat (27 # 10))) None)).2
  = [TokenizerCall "Hi";
     GenerateCall [72; 105] {| gk_max_length := Some (PInt 2);
                               gk_stopping_criteria := None |};
     DecodeCall [72; 105; 33]].
Proof. vm_compute. reflexivity. Qed.

(** C3, amended. For a numeric [max_length] (an integer or a finite float):
    a prompt whose token length meets or exceeds it has the budget reset to
    exactly that length plus 20, with a warning; a shorter prompt leaves the
    budget as l.219-223 set it, without the warning: [int(max_length)] of the
    caller's value, the adapter's default otherwise. Either way the budget
    handed to [generate] is at least the prompt length, and exceeds it when
    [max_length] is an integer or the adapter's default. *)
Theorem budget_after_adjustment (self : TransformersAction) (env : Env)
    (prompt model_ : string) (kwargs : Kwargs) (n : PyNumber) :
  Text.truthy prompt = true →
  requested_max_length self kwargs = Some n →
  let input_ids := encode (tokenizer self) prompt in
  let len := Z.of_nat (length input_ids) in
  let trace := (text_completion self env prompt model_ kwargs).2 in
  ∃ m : PyNumber,
    GenerateCall input_ids {| gk_max_length := Some m;
                              gk_stopping_criteria := criteria_of self kwargs |}
      ∈ trace
    ∧ (Log (MaxLengthReset len n (len + 20)) ∈ trace
       ↔ (number_value n <= inject_Z len)%Q)
    ∧ ((number_value n <= inject_Z len)%Q → m = PInt (len + 20))
    ∧ ((inject_Z len < number_value n)%Q →
       kwargs_max_length self kwargs = Some m
       ∧ (caller_max_length kwargs = Some n → m = PInt (int n))
       ∧ (caller_max_length kwargs = None → m = n))
    ∧ (inject_Z len <= number_value m)%Q
    ∧ ((∃ z : Z, n = PInt z) ∨ caller_max_length kwargs = None →
       (inject_Z len < number_value m)%Q).
Proof.
  intros Hp Hn. cbv zeta.
  destruct (text_completion_unfold self env prompt model_ kwargs Hp)
    as (ml & ta & Ha & ->).
  set (len := Z.of_nat (length (encode (tokenizer self) prompt))) in *.
  assert (0 <= len) as H0 by (unfold len; lia).
  rewrite Hn in Ha. simpl in Ha. simpl snd.
  rewrite criteria_calls_eq.
  destruct (ge_number len n) eqn:Hge.
  - injection Ha as <- <-.
    pose proof (proj1 (ge_number_spec len n) Hge) as Hle.
    exists (PInt (len + 20)).
    split; [in_trace|]. split; [split; [done|intros _; in_trace]|].
    split; [done|]. split; [intros Hlt; by apply Qlt_not_le in Hlt|].
    simpl. rewrite <- Zle_Qle, <- Zlt_Qlt. split; [lia|intros _; lia].
  - injection Ha as <- <-.
    pose proof (proj1 (ge_number_false len n) Hge) as Hlt.
    assert (¬ (number_value n <= inject_Z len)%Q) as Hnle
      by (by apply Qlt_not_le).
    destruct (int_above len n H0 Hlt) as [Hi Hz].
    assert (∃ m : PyNumber,
              kwargs_max_length self kwargs = Some m
              ∧ (caller_max_length kwargs = Some n → m = PInt (int n))
              ∧ (caller_max_length kwargs = None → m = n)) as (m & Hm & Hc & Hd).
    { unfold requested_max_length, kwargs_max_length in *.
      destruct (caller_max_length kwargs) as [c|].
      - injection Hn as ->. by exists (PInt (int n)).
      - by exists n. }
    exists m. rewrite Hm.
    split; [in_trace|]. split; [split; [|done]|].
    { intros Hin. exfalso.
      apply elem_of_app in Hin as [Hin|Hin];
        [by destruct (String.eqb model_ (model_name self));
           [apply not_elem_of_nil in Hin
           |apply list_elem_of_singleton in Hin]|].
      apply elem_of_app in Hin as [Hin|Hin];
        [by apply list_elem_of_fmap in Hin as (? & ? & _)|].
      revert Hin. in_trace. }
    split; [done|]. split; [done|].
    destruct (caller_max_length kwargs) as [c|] eqn:Ec.
    + unfold requested_max_length in Hn. rewrite Ec in Hn.
      injection Hn as ->. rewrite (Hc eq_refl). simpl.
      rewrite <- Zle_Qle. split; [done|].
      intros [[z ->]|[=]]. rewrite <- Zlt_Qlt. by apply (Hz z).
    + rewrite (Hd eq_refl). split; [by apply Qlt_le_weak|done].
Qed.

Lemma budget_after_adjustment_witness :
  ∃ m : PyNumber,
    GenerateCall [72; 105] {| gk_max_length := Some m;
                              gk_stopping_criteria := None |}
      ∈ (text_completion (Demo.action None [33] None) Demo.env "Hi" "demo"
           (Demo.kwargs (Some (PInt 2)) None)).2
    ∧ m = PInt 22.
Proof.
  destruct (budget_after_adjustment (Demo.action None [33] None) Demo.env
              "Hi" "demo" (Demo.kwargs (Some (PInt 2)) None) 2 eq_refl eq_refl)
    as (m & Hcall & _ & Hreset & _).
  exists m. split; [exact Hcall|].
  apply Hreset. vm_compute. discriminate.
Defined.

(** ** Token accounting *)

(** C4, as stated, fails: nothing in the adapter compares the two lengths. A
    model whose [generate] returns the new ids alone gives a completed call
    whose total is below the prompt count and whose completion count is
    negative. *)
Lemma usage_can_be_negative :
  (text_completion (Demo.seq2seq_action [33]) Demo.env "Hello" "demo"
     (Demo.kwargs None None)).1
  = Ok {| c_id := "0000";
          c_choices := [ {| cc_finish_reason := "length";
                            cc_index := 0;
                            cc_text := "!" |} ];
          c_created := 2;
          c_model := "demo";
          c_usage := Some {| total_tokens := 1;
                             prompt_tokens := 5;
                             completion_tokens := -4 |} |}.
Proof. vm_compute. reflexivity. Qed.

(** C4, amended. A completed call reports [prompt_tokens] as the tokenized
    input length, [total_tokens] as the length of the sequence [generate]
    returned and [completion_tokens] as their difference. The total is at
    least the prompt count, and the difference not negative, exactly when
    [generate] returned at least as many ids as it was given; this is so
    when it returned the prompt ids followed by the new ids, and the
    difference then counts the new ids. *)
Theorem usage_token_accounting (self : TransformersAction) (env : Env)
    (prompt model_ : string) (kwargs : Kwargs) (res : Completion)
    (t : list Event) :
  text_completion self env prompt model_ kwargs = (Ok res, t) →
  ∃ usage gk,
    c_usage res = Some usage ∧
    GenerateCall (encode (tokenizer self) prompt) gk ∈ t ∧
    let input_ids := encode (tokenizer self) prompt in
    let outputs := (generate (model self) input_ids gk).1 in
    prompt_tokens usage = Z.of_nat (length input_ids) ∧
    total_tokens usage = Z.of_nat (length outputs) ∧
    completion_tokens usage = total_tokens usage - prompt_tokens usage ∧
    (prompt_tokens usage <= total_tokens usage
     ↔ (length input_ids ≤ length outputs)%nat) ∧
    (0 <= completion_tokens usage
     ↔ (length input_ids ≤ length outputs)%nat) ∧
    (∀ new, outputs = input_ids ++ new →
       prompt_tokens usage <= total_tokens usage ∧
       completion_tokens usage = Z.of_nat (length new)).
Proof.
  intros H.
  destruct (Text.truthy prompt) eqn:Hp;
    [|by unfold text_completion in H; rewrite Hp in H].
  destruct (text_completion_unfold self env prompt model_ kwargs Hp)
    as (ml & ta & Ha & E).
  cbv zeta in E. rewrite E in H. clear E.
  set (gk := {| gk_max_length := ml;
                gk_stopping_criteria := criteria_of self kwargs |}) in *.
  destruct (finish_reason_of _ _ _).1 as [fr|e]; [|done].
  injection H as <- <-.
  eexists _, gk. split; [reflexivity|]. split; [in_trace|].
  cbv zeta. simpl.
  repeat split; try lia;
    match goal with H : _ = _ ++ _ |- _ => rewrite H, length_app; lia end.
Qed.

Lemma usage_token_accounting_witness :
  ∃ usage,
    c_usage (completion_record (Demo.action None [72; 105; 0] None) Demo.env
               "Hi" [72; 105; 72; 105; 0] "stop") = Some usage ∧
    prompt_tokens usage = 2 ∧
    total_tokens usage = 5 ∧
    completion_tokens usage = 3.
Proof.
  destruct (usage_token_accounting (Demo.action None [72; 105; 0] None) Demo.env
              "Hi" "demo" (Demo.kwargs None None) _ _ eq_refl)
    as (usage & gk & Hu & _ & Hp & Ht & Hc & _).
  exists usage. split; [exact Hu|]. split; [exact Hp|]. split; [exact Ht|].
  rewrite Hc, Ht, Hp. reflexivity.
Defined.

(** ** The finish reason *)

Section finish_reason.

Variable tok : Tokenizer.

(** A stop word matched during generation: the reason is "stop". *)
Lemma finish_reason_matched sc w outputs :
  finish_reason_of tok (Some (record_match (Some w) sc)) outputs
    = (Ok "stop", []).
Proof. reflexivity. Qed.

(** No criteria: the reason follows the end-of-sequence check. *)
Lemma finish_reason_no_criteria eos outputs t :
  eos_token_id tok = Some eos →
  finish_reason_of tok None (outputs ++ [t])
    = (Ok (if t =? eos then "stop" else "length"), []).
Proof.
  intros He. unfold finish_reason_of. by rewrite He, last_snoc.
Qed.

Lemma finish_reason_no_eos_id outputs :
  eos_token_id tok = None →
  finish_reason_of tok None outputs = (Ok "length", []).
Proof. intros He. unfold finish_reason_of. by rewrite He. Qed.

End finish_reason.

(** C1. With stopping criteria configured and no stop word matched, the
    finish reason is "length" even when the last generated id is the
    end-of-sequence id; the branch without criteria reports "stop" for the
    same output. The claim asks for "stop" in both. *)
Theorem finish_reason_eos_rule_skipped (tok : Tokenizer)
    (sc : StopAtWordsStoppingCriteria) (outputs : list Z) (eos : Z) :
  eos_token_id tok = Some eos →
  finish_reason_of tok (Some (record_match None sc)) (outputs ++ [eos])
    = (Ok "length", [])
  ∧ finish_reason_of tok None (outputs ++ [eos]) = (Ok "stop", []).
Proof.
  intros He. split; [reflexivity|].
  rewrite (finish_reason_no_criteria tok eos outputs eos He).
  by rewrite Z.eqb_refl.
Qed.

Lemma finish_reason_eos_rule_skipped_witness :
  finish_reason_of (Demo.tok None)
    (Some (record_match None (from_stop_words ["###"] (Demo.tok None)))) ([72; 105] ++ [0])
    = (Ok "length", [])
  ∧ finish_reason_of (Demo.tok None) None ([72; 105] ++ [0]) = (Ok "stop", []).
Proof.
  exact (finish_reason_eos_rule_skipped (Demo.tok None)
           (from_stop_words ["###"] (Demo.tok None)) [72; 105] 0 eq_refl).
Defined.

(** The same through [text_completion]: the scripted model answers [Hi] and
    the end-of-sequence id; with a stop word that never matches the call
    reports "length", without stop words it reports "stop". *)
Example text_completion_eos_with_stop_words :
  cc_finish_reason <$>
    match (text_completion (Demo.action None [72; 105; 0] None) Demo.env
             "Q" "demo" (Demo.kwargs None (Some (StopSequence ["###"])))).1 with
    | Ok res => c_choices res
    | Raise _ => []
    end = ["length"]
  ∧ cc_finish_reason <$>
    match (text_completion (Demo.action None [72; 105; 0] None) Demo.env
             "Q" "demo" (Demo.kwargs None None)).1 with
    | Ok res => c_choices res
    | Raise _ => []
    end = ["stop"].
Proof. split; vm_compute; reflexivity. Qed.

(** ** The stop list of the freeform prompt *)

Section fallback_stops.

Lemma coerce_stop_Ok stop : ∃ ws t, coerce_stop stop = (Ok ws, t).
Proof. destruct stop; by eexists _, _. Qed.

Lemma fallback_stop_Ok messages stop :
  ∃ ws t, fallback_stop messages stop = (Ok ws, t) ∧
          ∀ r, r ∈ roles messages → role_stop r ∈ ws.
Proof.
  unfold fallback_stop.
  destruct (coerce_stop_Ok stop) as (ws & t & ->).
  eexists _, _. split; [reflexivity|].
  intros r Hr. apply elem_of_app. right.
  apply list_elem_of_fmap. exists r. split; [done|].
  by apply elem_of_elements.
Qed.

Lemma prepare_prompt_fallback tok messages stop prompt stop' t :
  chat_template tok = None →
  prepare_prompt tok messages stop = (Ok (prompt, stop'), t) →
  ∃ ws, fallback_stop messages stop = (Ok ws, t) ∧ stop' = StopSequence ws ∧
        prompt = fallback_prompt messages +:+ LF +:+ LF +:+ "assistant:" +:+ LF.
Proof.
  intros Ht. unfold prepare_prompt. rewrite Ht.
  destruct (negb (Text.truthy (fallback_prompt messages))); [done|].
  intros H. apply bind_Ok_inv in H as (ws & t1 & t2 & Hf & H & ->).
  injection H as <- <- <-. exists ws. by rewrite app_nil_r.
Qed.

End fallback_stops.

(** C5. Without a chat template, whenever [chat] gets as far as the
    completion step, the stop value it passes is a list that contains
    ["\n" + role + ":"] for every role of the messages and for each of
    assistant, bot, user and system; the same strings are among the stop
    words the completion builds its stopping criteria from. *)
Theorem fallback_stop_set_has_role_stops (self : TransformersAction)
    (messages : list Message) (kwargs : Kwargs) (prompt : string)
    (stop : StopParam) (t : list Event) (r : string) :
  chat_template (tokenizer self) = None →
  prepare_prompt (tokenizer self) messages
    (default (StopSequence []) (kw_stop kwargs)) = (Ok (prompt, stop), t) →
  r ∈ (role <$> messages) ∨ r ∈ ["assistant"; "bot"; "user"; "system"] →
  ∃ ws, stop = StopSequence ws ∧
        role_stop r ∈ ws ∧
        role_stop r ∈ total_stop_words self
                        {| kw_max_tokens := kw_max_tokens kwargs;
                           kw_max_length := kw_max_length kwargs;
                           kw_stop := Some stop |}.
Proof.
  intros Ht Hp Hr.
  destruct (prepare_prompt_fallback _ _ _ _ _ _ Ht Hp) as (ws & Hf & -> & _).
  destruct (fallback_stop_Ok messages (default (StopSequence []) (kw_stop kwargs)))
    as (ws' & t' & Hf' & Hin).
  rewrite Hf in Hf'. injection Hf' as <- <-.
  assert (role_stop r ∈ ws) as Hw.
  { apply Hin. unfold roles. apply elem_of_list_to_set, elem_of_app.
    destruct Hr; auto. }
  exists ws. repeat split; [done|].
  unfold total_stop_words. simpl. apply elem_of_app. by right.
Qed.

Lemma fallback_stop_set_has_role_stops_witness :
  ∃ ws,
    StopSequence [LF +:+ "system:"; LF +:+ "user:"; LF +:+ "assistant:";
                  LF +:+ "bot:"; LF +:+ "tool:"] = StopSequence ws ∧
    role_stop "tool" ∈ ws ∧
    role_stop "tool" ∈ total_stop_words (Demo.action None [] None)
                         {| kw_max_tokens := None;
                            kw_max_length := None;
                            kw_stop := Some (StopSequence
                              [LF +:+ "system:"; LF +:+ "user:";
                               LF +:+ "assistant:"; LF +:+ "bot:";
                               LF +:+ "tool:"]) |}.
Proof.
  apply (fallback_stop_set_has_role_stops (Demo.action None [] None)
           [Demo.user "Hi"; {| role := "tool"; content := None |}]
           (Demo.kwargs None None)
           ("user:" +:+ LF +:+ "Hi" +:+ LF +:+ LF +:+ "assistant:" +:+ LF)
           _ []).
  - reflexivity.
  - vm_compute. reflexivity.
  - left. apply list_elem_of_In. simpl. auto.
Defined.

(** ** A text as the [stop] of a templated chat *)

Section text_stop.

Lemma chars_cons c rest :
  Text.chars (String c rest) = String c "" :: Text.chars rest.
Proof. reflexivity. Qed.

(** The first character of the stop text, when the text ends with it, is
    the one word the loop removes. *)
Lemma trim_stop_first_char c rest head :
  trim_stop (Text.chars (String c rest)) (head +:+ String c "") = head.
Proof.
  rewrite chars_cons. simpl. rewrite replace_right_suffix.
  destruct (String.eqb_spec head (head +:+ String c "")) as [E|E]; [|done].
  apply (f_equal String.length) in E. rewrite app_length in E. simpl in E. lia.
Qed.

Lemma prepare_prompt_template tok render messages stop prompt stop' t :
  chat_template tok = Some render →
  prepare_prompt tok messages stop = (Ok (prompt, stop'), t) →
  prompt = render (tokenizer_chat_conversation messages) ∧ stop' = stop.
Proof.
  intros Ht. unfold prepare_prompt. rewrite Ht. intros H.
  apply bind_Ok_inv in H as ([] & t1 & t2 & _ & H & _).
  destruct (negb (Text.truthy _)); [done|]. by injection H as <- <-.
Qed.

End text_stop.

(** C10. With a chat template and [stop] given as one text, [chat] hands the
    text on as it is and its trimming loop runs over the characters of the
    text: the returned content is the completion text trimmed by the
    one-character words, so a completion text that ends with the first
    character of the stop text loses exactly that character. *)
Theorem chat_text_stop_trims_one_character (self : TransformersAction)
    (env : Env) (messages : list Message) (model_ : string) (kwargs : Kwargs)
    (c : ascii) (rest : string) (render : list (string * string) → string)
    (res : ChatCompletion) (t : list Event) :
  chat_template (tokenizer self) = Some render →
  kw_stop kwargs = Some (StopText (String c rest)) →
  chat self env messages model_ kwargs = (Ok res, t) →
  ∃ completion t',
    text_completion self env (render (tokenizer_chat_conversation messages))
      model_ {| kw_max_tokens := kw_max_tokens kwargs;
                kw_max_length := kw_max_length kwargs;
                kw_stop := Some (StopText (String c rest)) |}
      = (Ok completion, t') ∧
    chat_choices res
      = chat_choice (Text.chars (String c rest)) <$> c_choices completion ∧
    ∀ choice head,
      choice ∈ c_choices completion →
      cc_text choice = head +:+ String c "" →
      m_content (ch_message (chat_choice (Text.chars (String c rest)) choice))
        = head.
Proof.
  intros Ht Hs H.
  apply chat_inv in H as (prompt & stop & completion & ws & t1 & t2 & Hp & Hc & Hi & Hr & _).
  rewrite Hs in Hp. simpl in Hp.
  destruct (prepare_prompt_template _ _ _ _ _ _ _ Ht Hp) as [-> ->].
  simpl in Hi. injection Hi as <-.
  exists completion, t2. repeat split; [done..|].
  intros choice head _ E. simpl. rewrite E. apply trim_stop_first_char.
Qed.

Lemma chat_text_stop_trims_one_character_witness :
  ∃ res t,
    chat (Demo.action (Some (λ _, "Q")) (Demo.char_encode "Hello##") None)
      Demo.env [Demo.user "Hi"] "demo" (Demo.kwargs None (Some (StopText "##")))
      = (Ok res, t) ∧
    (m_content ∘ ch_message) <$> chat_choices res = ["Hello#"].
Proof.
  eexists _, _. split; [vm_compute; reflexivity|].
  destruct (chat_text_stop_trims_one_character
              (Demo.action (Some (λ _, "Q")) (Demo.char_encode "Hello##") None)
              Demo.env [Demo.user "Hi"] "demo"
              (Demo.kwargs None (Some (StopText "##"))) "#" "#" (λ _, "Q")
              _ _ eq_refl eq_refl eq_refl)
    as (completion & t' & Hc & Hr & _).
  refine (eq_trans (f_equal (fmap (m_content ∘ ch_message)) Hr) _).
  vm_compute in Hc. injection Hc as <- _. vm_compute. reflexivity.
Defined.

(** For comparison, the same stop given as a one-element list is trimmed
    whole. *)
Example chat_list_stop_trims_whole_word :
  trim_stop ["##"] "Hello##" = "Hello"
  ∧ trim_stop (Text.chars "##") "Hello##" = "Hello#".
Proof. split; vm_compute; reflexivity. Qed.

(** ** Echo removal *)

Section echo.

Lemma removeprefix_None old s b : Text.removeprefix old s = None → s ≠ old +:+ b.
Proof. intros H ->. by rewrite removeprefix_app in H. Qed.

Lemma replace_first_unfold old s :
  Text.replace_first old s =
  match Text.removeprefix old s with
  | Some rest => rest
  | None => match s with
            | EmptyString => EmptyString
            | String c s' => String c (Text.replace_first old s')
            end
  end.
Proof. by destruct s. Qed.


Lemma normalize_without_tokens tok text :
  eos_token tok = None → bos_token tok = None → normalize tok text = text.
Proof. unfold normalize. by intros -> ->. Qed.

(** Without [eos_token] and [bos_token], a decoded output that starts with
    the prompt yields what follows the prompt, special tokens stripped. *)
Lemma remove_echo_text_front tok prompt rest :
  eos_token tok = None → bos_token tok = None →
  remove_echo_text tok prompt (prompt +:+ rest) = remove_special_tokens rest tok.
Proof.
  intros He Hb. unfold remove_echo_text, echo_removed.
  rewrite !normalize_without_tokens by done.
  by rewrite replace_first_unfold, removeprefix_app.
Qed.

End echo.


Example remove_echo_text_strips_tokens_first_values :
  remove_echo_text Demo.tok_bos "Hi" "<s> Hi there</s>" = " there"
  ∧ remove_echo_text_as_stated Demo.tok_bos "Hi" "<s> Hi there</s>" = "  there"
  ∧ normalize Demo.tok_bos "<s> Hi there</s>" = "Hi there".
Proof. repeat split; vm_compute; reflexivity. Qed.

(** The whitespace taken with a token can belong to the prompt: a prompt
    that ends with a line feed, answered by the end-of-sequence token alone,
    is not found in the reduced output. *)
Example remove_echo_text_trailing_line_feed :
  remove_echo_text (Demo.tok None)
    ("user:" +:+ LF +:+ "Hi" +:+ LF +:+ LF +:+ "assistant:" +:+ LF)
    ("user:" +:+ LF +:+ "Hi" +:+ LF +:+ LF +:+ "assistant:" +:+ LF +:+ "</s>")
  = "user:" +:+ LF +:+ "Hi" +:+ LF +:+ LF +:+ "assistant:".
Proof. vm_compute. reflexivity. Qed.


(** ** Pooling *)

Section pooling.

Import Pooling.

Implicit Types (h pads : list (list Qc)) (m : list Z) (v : list Qc).

Lemma weight_zero : weight 0 = 0%Qc.
Proof. reflexivity. Qed.

Lemma vadd_zero_l v n :
  length v = n → vadd (vscale 0%Qc v) (replicate n 0%Qc) = replicate n 0%Qc.
Proof.
  intros <-. unfold vadd, vscale.
  induction v as [|x v IH]; [done|]. csimpl. rewrite IH. f_equal; ring.
Qed.

(** Padding positions add nothing to the weighted sum. *)
Lemma sum_embeddings_pads n pads :
  (∀ v, v ∈ pads → length v = n) →
  sum_embeddings n pads (replicate (length pads) 0) = replicate n 0%Qc.
Proof.
  unfold sum_embeddings. induction pads as [|p pads IH]; intros Hp; [done|].
  csimpl. rewrite IH by (intros v Hv; apply Hp; by right).
  rewrite weight_zero. apply vadd_zero_l, Hp. by left.
Qed.

Lemma sum_mask_zeros k : sum_mask (replicate k 0) = 0%Qc.
Proof.
  unfold sum_mask. induction k as [|k IH]; [done|].
  csimpl. rewrite IH, weight_zero. ring.
Qed.

Lemma sum_mask_app m m' : sum_mask (m ++ m') = (sum_mask m + sum_mask m')%Qc.
Proof.
  unfold sum_mask. induction m as [|x m IH]; csimpl; [ring|].
  rewrite IH. ring.
Qed.

Lemma sum_embeddings_app n h pads m m' :
  length m = length h →
  sum_embeddings n (h ++ pads) (m ++ m')
    = foldr vadd (sum_embeddings n pads m')
            (zip_with vscale (weight <$> m) h).
Proof.
  intros Hl. unfold sum_embeddings.
  rewrite fmap_app, zip_with_app by (by rewrite length_fmap).
  by rewrite foldr_app.
Qed.

(** The divisor is the number of positions whose mask entry is 1. *)
Lemma sum_mask_count m :
  sum_mask m = Q2Qc (inject_Z (Z.of_nat (length (filter (λ x, x = 1) m)))).
Proof.
  unfold sum_mask. induction m as [|x m IH]; [by apply Qc_is_canon|].
  csimpl. rewrite IH. unfold weight. rewrite filter_cons.
  destruct (Z.eqb_spec x 1) as [->|Hx].
  - rewrite decide_True by done. simpl length.
    apply Qc_is_canon. simpl. rewrite !Qred_correct.
    rewrite Nat2Z.inj_succ. unfold Z.succ. rewrite inject_Z_plus. ring.
  - rewrite decide_False by done. ring.
Qed.

End pooling.

(** C9. The pooled vector of one input is the mask-weighted sum of its
    hidden vectors divided by the sum of the mask weights; that divisor is
    the number of positions with mask 1, not the sequence length; and
    appending padding positions, with mask 0 and arbitrary hidden vectors of
    the same width, changes neither the divisor nor the pooled vector. *)
Theorem pooling_ignores_trailing_padding (h pads : list (list Qc))
    (m : list Z) :
  h ≠ [] →
  length m = length h →
  (∀ v, v ∈ pads → length v = length (hd [] h)) →
  Pooling.pool (h ++ pads) (m ++ replicate (length pads) 0) = Pooling.pool h m
  ∧ Pooling.sum_mask (m ++ replicate (length pads) 0)
    = Q2Qc (inject_Z (Z.of_nat (length (filter (λ x, x = 1) m))))
  ∧ Pooling.pool h m
    = (λ x, (x / Pooling.sum_mask m)%Qc)
        <$> foldr Pooling.vadd (replicate (length (hd [] h)) 0%Qc)
              (zip_with Pooling.vscale (Pooling.weight <$> m) h).
Proof.
  intros Hne Hl Hp.
  assert (Pooling.sum_mask (m ++ replicate (length pads) 0) = Pooling.sum_mask m)
    as Hmask.
  { rewrite sum_mask_app, sum_mask_zeros. ring. }
  repeat split.
  - unfold Pooling.pool. rewrite Hmask.
    replace (hd [] (h ++ pads)) with (hd [] h) by (by destruct h).
    by rewrite sum_embeddings_app, sum_embeddings_pads.
  - rewrite Hmask. apply sum_mask_count.
Qed.

Lemma pooling_ignores_trailing_padding_witness :
  Pooling.pool ([[Demo.q 1; Demo.q 2]; [Demo.q 3; Demo.q 4]] ++ [[Demo.q 9; Demo.q 9]])
               ([1; 1] ++ replicate (length [[Demo.q 9; Demo.q 9]]) 0)
  = Pooling.pool [[Demo.q 1; Demo.q 2]; [Demo.q 3; Demo.q 4]] [1; 1].
Proof.
  refine (proj1 (pooling_ignores_trailing_padding
                   [[Demo.q 1; Demo.q 2]; [Demo.q 3; Demo.q 4]] [[Demo.q 9; Demo.q 9]] [1; 1] _ _ _)).
  - discriminate.
  - reflexivity.
  - intros v Hv. apply list_elem_of_singleton in Hv. subst v. reflexivity.
Defined.

(** Two inputs of a batch with the same hidden states and the same mask get
    the same vector. *)
Lemma mean_pooling_identical_inputs (hidden : list (list (list Qc)))
    (mask : list (list Z)) (i j : nat) :
  hidden !! i = hidden !! j → mask !! i = mask !! j →
  Pooling.mean_pooling hidden mask !! i = Pooling.mean_pooling hidden mask !! j.
Proof.
  intros Hh Hm. unfold Pooling.mean_pooling.
  by rewrite !lookup_zip_with, Hh, Hm.
Qed.

(** What [embeddings] returns is this pooling of the model's hidden states,
    one vector per input in input order. *)
Lemma embeddings_data (self : TransformersAction) (input : list string) :
  ∃ res t,
    embeddings self input = (Ok res, t) ∧
    ∀ i : nat,
      r_data res !! i
      = (λ emb, {| e_embedding := emb; e_index := Z.of_nat i |})
          <$> Pooling.mean_pooling
                (forward (model self) (encode_batch (tokenizer self) input).1
                                      (encode_batch (tokenizer self) input).2)
                (encode_batch (tokenizer self) input).2 !! i.
Proof.
  unfold embeddings.
  destruct (encode_batch (tokenizer self) input) as [ids mask].
  eexists _, _. split; [reflexivity|]. intros i. simpl.
  apply list_lookup_imap.
Qed.

(** ** The scenarios of the specification *)

(** A prompt of 2048 tokens with [max_length = 2000]: reset to 2068, logged. *)
Example scenario_budget :
  adjust_max_length 2048 (Some (PInt 2000)) (Some (PInt 2000))
  = (Ok (Some (PInt 2068)), [Log (MaxLengthReset 2048 2000 2068)]).
Proof. reflexivity. Qed.

(** A system and a user message, no template, no stop words. *)
Example scenario_fallback_prompt :
  prepare_prompt (Demo.tok None)
    [ {| role := "system"; content := Some "You are helpful." |};
      {| role := "user"; content := Some "Hi" |} ]
    (StopSequence [])
  = (Ok ("system:" +:+ LF +:+ "You are helpful." +:+ LF +:+ LF
           +:+ "user:" +:+ LF +:+ "Hi" +:+ LF +:+ LF +:+ "assistant:" +:+ LF,
         StopSequence [LF +:+ "system:"; LF +:+ "user:";
                       LF +:+ "assistant:"; LF +:+ "bot:"]),
     []).
Proof. vm_compute. reflexivity. Qed.

(** * Further properties of the adapter *)

(** ** Stripping *)

Section strip_lemmas.

Lemma all_space_app s t : all_space (s +:+ t) = all_space s && all_space t.
Proof.
  induction s as [|c s IH]; [done|].
  rewrite app_cons. simpl. by rewrite IH, andb_assoc.
Qed.

Lemma lstrip_all_space s : all_space (Text.lstrip s) = all_space s.
Proof.
  induction s as [|c s IH]; [done|]. simpl.
  destruct (Text.isspace c) eqn:Hc; [done|]. simpl. by rewrite Hc.
Qed.

Lemma rstrip_empty s : Text.rstrip s = "" ↔ all_space s = true.
Proof.
  induction s as [|c s IH]; [done|]. simpl.
  destruct (Text.rstrip s) as [|d r] eqn:Hr.
  - destruct (Text.isspace c); simpl; [|done].
    split; [intros _; by apply IH|done].
  - split; [done|]. intros [_ H]%andb_prop. by apply IH in H.
Qed.

Lemma rstrip_all_space s : all_space (Text.rstrip s) = all_space s.
Proof.
  induction s as [|c s IH]; [done|]. simpl.
  destruct (Text.rstrip s) as [|d r] eqn:Hr.
  - pose proof (proj1 (rstrip_empty s) Hr) as Hs. rewrite Hs, andb_true_r.
    destruct (Text.isspace c) eqn:Hc; simpl; by rewrite ?Hc.
  - rewrite <- IH. reflexivity.
Qed.

Lemma strip_all_space s : all_space (Text.strip s) = all_space s.
Proof. unfold Text.strip. by rewrite rstrip_all_space, lstrip_all_space. Qed.

Lemma strip_empty s : Text.strip s = "" ↔ all_space s = true.
Proof. unfold Text.strip. by rewrite rstrip_empty, lstrip_all_space. Qed.

Lemma rstrip_idemp s : Text.rstrip (Text.rstrip s) = Text.rstrip s.
Proof.
  induction s as [|c s IH]; [done|]. simpl.
  destruct (Text.rstrip s) as [|d r] eqn:Hr.
  - destruct (Text.isspace c) eqn:Hc; [done|]. simpl. by rewrite Hc.
  - change (Text.rstrip (String c (String d r))) with
      (match Text.rstrip (String d r) with
       | EmptyString => if Text.isspace c then EmptyString else String c EmptyString
       | r' => String c r'
       end).
    by rewrite IH.
Qed.

(** A text without leading whitespace keeps that after [rstrip]. *)
Lemma lstrip_rstrip_fixed s :
  Text.lstrip s = s → Text.lstrip (Text.rstrip s) = Text.rstrip s.
Proof.
  destruct s as [|c s]; [done|]. simpl.
  destruct (Text.isspace c) eqn:Hc.
  - intros E. exfalso. apply (f_equal String.length) in E. simpl in E.
    assert (∀ t, (String.length (Text.lstrip t) ≤ String.length t)%nat) as Hle.
    { clear. induction t as [|d t IH]; simpl; [lia|].
      destruct (Text.isspace d); simpl; lia. }
    specialize (Hle s). lia.
  - intros _. destruct (Text.rstrip s); simpl; by rewrite Hc.
Qed.

Lemma lstrip_idemp s : Text.lstrip (Text.lstrip s) = Text.lstrip s.
Proof.
  induction s as [|c s IH]; [done|]. simpl.
  destruct (Text.isspace c) eqn:Hc; [done|]. simpl. by rewrite Hc.
Qed.

Lemma strip_idemp s : Text.strip (Text.strip s) = Text.strip s.
Proof.
  unfold Text.strip.
  rewrite (lstrip_rstrip_fixed (Text.lstrip s)) by apply lstrip_idemp.
  apply rstrip_idemp.
Qed.

End strip_lemmas.

(** ** The freeform prompt *)

Section fallback_prompt_lemmas.

Lemma fallback_prompt_fold messages :
  fallback_prompt messages = Text.strip (foldl prompt_step "" messages).
Proof. reflexivity. Qed.

Lemma prompt_step_stripped p m : Text.strip (prompt_step p m) = prompt_step p m.
Proof. unfold prompt_step. apply strip_idemp. Qed.

Lemma foldl_prompt_step_stripped p messages :
  Text.strip p = p →
  Text.strip (foldl prompt_step p messages) = foldl prompt_step p messages.
Proof.
  revert p. induction messages as [|m messages IH]; intros p Hp; [done|].
  simpl. apply IH, prompt_step_stripped.
Qed.

Lemma foldl_prompt_step_filter p messages :
  Text.strip p = p →
  foldl prompt_step p (filter (λ m, Is_true (has_content m)) messages)
  = foldl prompt_step p messages.
Proof.
  revert p. induction messages as [|m messages IH]; intros p Hp; [done|].
  rewrite filter_cons. case_decide as Hd; simpl.
  - apply IH, prompt_step_stripped.
  - rewrite IH by done. f_equal. unfold prompt_step.
    destruct (content m) as [c|] eqn:Hc; [|done].
    destruct Hd. unfold has_content. by rewrite Hc.
Qed.

Lemma prompt_step_not_space p m :
  all_space p = false → all_space (prompt_step p m) = false.
Proof.
  intros Hp. unfold prompt_step. rewrite strip_all_space.
  destruct (content m); [|done]. by rewrite all_space_app, Hp.
Qed.

Lemma prompt_step_content p m c :
  content m = Some c → all_space (prompt_step p m) = false.
Proof.
  intros Hc. unfold prompt_step. rewrite Hc, strip_all_space.
  rewrite !all_space_app. simpl. by rewrite !andb_false_r.
Qed.

Lemma foldl_prompt_step_not_space p messages :
  all_space p = false → all_space (foldl prompt_step p messages) = false.
Proof.
  revert p. induction messages as [|m messages IH]; intros p Hp; [done|].
  simpl. by apply IH, prompt_step_not_space.
Qed.

Lemma foldl_prompt_step_content p messages :
  (∃ m, m ∈ messages ∧ content m ≠ None) →
  all_space (foldl prompt_step p messages) = false.
Proof.
  revert p. induction messages as [|m messages IH]; intros p (m' & Hin & Hc).
  - by apply not_elem_of_nil in Hin.
  - simpl. apply elem_of_cons in Hin as [->|Hin].
    + destruct (content m) as [c|] eqn:E; [|done].
      apply foldl_prompt_step_not_space. by apply (prompt_step_content p m c).
    + apply IH. by exists m'.
Qed.

Lemma foldl_prompt_step_no_content messages :
  (∀ m, m ∈ messages → content m = None) →
  foldl prompt_step "" messages = "".
Proof.
  induction messages as [|m messages IH]; intros H; [done|].
  simpl. unfold prompt_step at 2. rewrite (H m) by (by left).
  apply IH. intros m' Hm'. apply H. by right.
Qed.

Lemma truthy_not_empty s : Text.truthy s = true ↔ s ≠ "".
Proof. by destruct s. Qed.

Lemma truthy_app_r s t : Text.truthy t = true → Text.truthy (s +:+ t) = true.
Proof. destruct s; [done|]. by rewrite app_cons. Qed.

End fallback_prompt_lemmas.

(** When the freeform prompt is empty. *)
Lemma fallback_prompt_empty_spec (messages : list Message) :
  fallback_prompt messages = "" ↔ ∀ m, m ∈ messages → content m = None.
Proof.
  rewrite fallback_prompt_fold, strip_empty. split.
  - intros Hs m Hm. destruct (content m) as [c|] eqn:Hc; [|done].
    rewrite (foldl_prompt_step_content "" messages) in Hs; [done|].
    exists m. split; [done|]. by rewrite Hc.
  - intros H. by rewrite foldl_prompt_step_no_content.
Qed.

(** The response of [embeddings], spelled out. *)
Lemma embeddings_Ok (self : TransformersAction) (input : list string) :
  let ids := (encode_batch (tokenizer self) input).1 in
  let mask := (encode_batch (tokenizer self) input).2 in
  let pooled := Pooling.mean_pooling (forward (model self) ids mask) mask in
  ∃ res,
    embeddings self input
      = (Ok res, [BatchTokenizerCall input; ForwardCall ids mask]) ∧
    r_prompt_tokens res = batch_width ids ∧
    r_total_tokens res = batch_width ids ∧
    r_model res = model_name self ∧
    length (r_data res) = length pooled ∧
    ∀ i e, r_data res !! i = Some e →
           e_index e = Z.of_nat i ∧ pooled !! i = Some (e_embedding e).
Proof.
  cbv zeta. unfold embeddings.
  destruct (encode_batch (tokenizer self) input) as [ids mask]. simpl fst.
  simpl snd. eexists. split; [reflexivity|]. simpl.
  repeat split.
  - apply length_imap.
  - rewrite list_lookup_imap in H.
    destruct (Pooling.mean_pooling _ _ !! i); [|done]. by injection H as <-.
  - rewrite list_lookup_imap in H.
    destruct (Pooling.mean_pooling _ _ !! i); [|done]. by injection H as <-.
Qed.

(** X1. Messages without content leave no trace in the freeform prompt:
    dropping them beforehand gives the same prompt. *)
Theorem fallback_prompt_ignores_empty_messages (messages : list Message) :
  fallback_prompt (filter (λ m, Is_true (has_content m)) messages)
  = fallback_prompt messages.
Proof.
  rewrite !fallback_prompt_fold. by rewrite foldl_prompt_step_filter.
Qed.

(** X2. The freeform prompt is empty exactly when no message has content;
    as soon as one message has content, even an empty one, its role line
    makes the prompt non-empty. *)
Theorem fallback_prompt_empty_iff (messages : list Message) :
  fallback_prompt messages = "" ↔ ∀ m, m ∈ messages → content m = None.
Proof. exact (fallback_prompt_empty_spec messages). Qed.

(** ** The freeform branch of [chat] *)

Section fallback_chat_lemmas.

Lemma role_stop_not_empty r : role_stop r ≠ "".
Proof. done. Qed.

Lemma bind_Ok_eq {A B : Type} (m : M A) (f : A → M B) a t1 b t2 :
  m = (Ok a, t1) → f a = (Ok b, t2) → m ≫= f = (Ok b, t1 ++ t2).
Proof. intros -> Hf. unfold mbind, M_bind. by rewrite Hf. Qed.

Lemma fallback_stop_eq messages stop :
  fallback_stop messages stop
  = (Ok (filter (λ s, Is_true (Text.truthy s)) (must_list stop)
           ++ (role_stop <$> elements (roles messages))),
     match stop with
     | StopInvalid => [Log (InvalidStopWords StopInvalid)]
     | _ => []
     end).
Proof. by destruct stop. Qed.

Lemma baseline_role_in_roles messages : "assistant" ∈ roles messages.
Proof.
  unfold roles. apply elem_of_list_to_set, elem_of_app. right. by left.
Qed.

End fallback_chat_lemmas.

(** The freeform branch returns once a message has content. *)
Lemma fallback_chat_Ok (self : TransformersAction) (env : Env)
    (messages : list Message) (model_ : string) (kwargs : Kwargs) :
  chat_template (tokenizer self) = None →
  (∃ m, m ∈ messages ∧ content m ≠ None) →
  ∃ res t, chat self env messages model_ kwargs = (Ok res, t).
Proof.
  intros Ht Hm.
  assert (fallback_prompt messages ≠ "") as Hp.
  { intros E. destruct Hm as (m & Hin & Hc).
    by apply (proj1 (fallback_prompt_empty_spec messages) E) in Hin. }
  destruct messages as [|m0 messages'] eqn:Em.
  { destruct Hm as (m & Hin & _). by apply not_elem_of_nil in Hin. }
  rewrite <- Em in *. clear Hm.
  set (stop := default (StopSequence []) (kw_stop kwargs)).
  set (prompt := fallback_prompt messages +:+ LF +:+ LF +:+ "assistant:" +:+ LF).
  set (ws := filter (λ s, Is_true (Text.truthy s)) (must_list stop)
               ++ (role_stop <$> elements (roles messages))).
  assert (∃ t1, prepare_prompt (tokenizer self) messages stop
                = (Ok (prompt, StopSequence ws), t1)) as [t1 Hprep].
  { unfold prepare_prompt. rewrite Ht.
    apply truthy_not_empty in Hp. rewrite Hp. simpl negb. cbv iota.
    rewrite fallback_stop_eq. eexists. unfold mbind, M_bind, mret, M_ret.
    cbv beta iota. reflexivity. }
  set (kw := {| kw_max_tokens := kw_max_tokens kwargs;
                kw_max_length := kw_max_length kwargs;
                kw_stop := Some (StopSequence ws) |}).
  assert (Text.truthy prompt = true) as Htp.
  { unfold prompt. by apply truthy_app_r. }
  assert (∃ sc, criteria_of self kw = Some sc) as [sc Hsc].
  { unfold criteria_of, total_stop_words. simpl.
    assert (role_stop "assistant" ∈ stop_words self ++ ws) as Hin.
    { apply elem_of_app. right. apply elem_of_app. right.
      apply list_elem_of_fmap. exists "assistant". split; [done|].
      apply elem_of_elements, baseline_role_in_roles. }
    destruct (stop_words self ++ ws); [by apply not_elem_of_nil in Hin|by eexists]. }
  destruct (text_completion_unfold self env prompt model_ kw Htp)
    as (ml & ta & _ & Htc).
  cbv zeta in Htc. rewrite Hsc in Htc. simpl in Htc.
  eexists _, _. unfold chat. rewrite Em. rewrite <- Em. fold stop.
  eapply bind_Ok_eq; [exact Hprep|]. cbv beta iota. fold kw.
  eapply bind_Ok_eq; [exact Htc|].
  eapply bind_Ok_eq; [by apply convert_choices_ok|]. reflexivity.
Qed.

(** X3. The stop list of the freeform branch never holds an empty text,
    whatever the caller passed: empty stop words are dropped and every role
    stop is non-empty. Every non-empty stop word of the caller is kept, and
    only a [stop] that is neither a text nor a sequence is logged. *)
Theorem fallback_stop_words_not_empty (messages : list Message)
    (stop : StopParam) :
  ∃ ws t,
    fallback_stop messages stop = (Ok ws, t) ∧
    (∀ w, w ∈ ws → w ≠ "") ∧
    (∀ w, w ≠ "" → stop = StopText w → w ∈ ws) ∧
    (∀ w l, w ≠ "" → stop = StopSequence l → w ∈ l → w ∈ ws) ∧
    (t = [] ↔ stop ≠ StopInvalid).
Proof.
  eexists _, _. split; [apply fallback_stop_eq|]. repeat split.
  - intros w [Hw|Hw]%elem_of_app.
    + apply list_elem_of_filter in Hw as [Hw _]. by destruct w.
    + apply list_elem_of_fmap in Hw as (r & -> & _). apply role_stop_not_empty.
  - intros w Hw ->. apply elem_of_app. left. apply list_elem_of_filter.
    split; [by destruct w|]. simpl. by left.
  - intros w l Hw -> Hl. apply elem_of_app. left. apply list_elem_of_filter.
    split; [by destruct w|done].
  - by destruct stop.
  - by destruct stop.
Qed.

(** X5. Without a chat template and with at least one message, [chat] raises
    the empty-prompt error exactly when no message has content, and it does
    so before any call to the tokenizer or the model. *)
Theorem fallback_chat_raises_iff_no_content (self : TransformersAction)
    (env : Env) (messages : list Message) (model_ : string) (kwargs : Kwargs) :
  chat_template (tokenizer self) = None →
  messages ≠ [] →
  chat self env messages model_ kwargs
    = (Raise (ValueError "The `prompt` cannot be empty, no content in messages"),
       [])
  ↔ ∀ m, m ∈ messages → content m = None.
Proof.
  intros Ht Hne. split.
  - intros Hr m Hin. destruct (content m) as [c|] eqn:Hc; [|done].
    destruct (fallback_chat_Ok self env messages model_ kwargs Ht)
      as (res & t & E); [|congruence].
    exists m. split; [done|]. by rewrite Hc.
  - intros Hnone. apply fallback_prompt_empty_spec in Hnone.
    destruct messages as [|m0 messages']; [done|].
    unfold chat, prepare_prompt. rewrite Ht, Hnone. reflexivity.
Qed.

Lemma fallback_chat_raises_iff_no_content_witness :
  chat (Demo.action None [72; 105; 0] None) Demo.env
    [{| role := "user"; content := None |}] "demo" (Demo.kwargs None None)
    = (Raise (ValueError "The `prompt` cannot be empty, no content in messages"),
       [])
  ↔ ∀ m, m ∈ [{| role := "user"; content := None |}] → content m = None.
Proof.
  apply (fallback_chat_raises_iff_no_content
           (Demo.action None [72; 105; 0] None) Demo.env
           [{| role := "user"; content := None |}] "demo"
           (Demo.kwargs None None) eq_refl).
  discriminate.
Defined.

(** ** The completion call *)

Section completion_more.

(** What a returning completion is made of. *)
Lemma text_completion_Ok_inv self env prompt model_ kwargs res t :
  text_completion self env prompt model_ kwargs = (Ok res, t) →
  Text.truthy prompt = true ∧
  ∃ gk finish_reason,
    GenerateCall (encode (tokenizer self) prompt) gk ∈ t ∧
    gk_stopping_criteria gk = criteria_of self kwargs ∧
    (finish_reason_of (tokenizer self)
       (record_match (generate (model self) (encode (tokenizer self) prompt) gk).2
          <$> criteria_of self kwargs)
       (generate (model self) (encode (tokenizer self) prompt) gk).1).1
      = Ok finish_reason ∧
    res = completion_record self env prompt
            (generate (model self) (encode (tokenizer self) prompt) gk).1
            finish_reason.
Proof.
  intros H.
  destruct (Text.truthy prompt) eqn:Hp;
    [|by unfold text_completion in H; rewrite Hp in H].
  split; [done|].
  destruct (text_completion_unfold self env prompt model_ kwargs Hp)
    as (ml & ta & Ha & E).
  cbv zeta in E. rewrite E in H. clear E.
  set (gk := {| gk_max_length := ml;
                gk_stopping_criteria := criteria_of self kwargs |}) in *.
  destruct (finish_reason_of _ _ _).1 as [fr|e] eqn:Hf; [|done].
  injection H as <- <-. exists gk, fr. repeat split; try done. in_trace.
Qed.

End completion_more.

(** X6. The budget a caller asks for: [max_tokens] wins over [max_length],
    a value of 0 counts as not given, and only when neither is given (or
    both are 0) the adapter's default applies. *)
Theorem requested_max_length_precedence (self : TransformersAction)
    (kwargs : Kwargs) :
  (∀ n : Z, kw_max_tokens kwargs = Some (PInt n) → n ≠ 0 →
        requested_max_length self kwargs = Some (PInt n))
  ∧ (∀ n : Z,
       (kw_max_tokens kwargs = None ∨ kw_max_tokens kwargs = Some (PInt 0)) →
       kw_max_length kwargs = Some (PInt n) → n ≠ 0 →
       requested_max_length self kwargs = Some (PInt n))
  ∧ ((kw_max_tokens kwargs = None ∨ kw_max_tokens kwargs = Some (PInt 0)) →
     (kw_max_length kwargs = None ∨ kw_max_length kwargs = Some (PInt 0)) →
     requested_max_length self kwargs = default_max_tokens self).
Proof.
  unfold requested_max_length, caller_max_length, py_or, truthy_int, truthy_number.
  repeat split.
  - intros n -> Hn. simpl. destruct (Z.eqb_spec n 0); [done|]. simpl.
    by destruct (Z.eqb_spec n 0).
  - intros n [->| ->] -> Hn; simpl; destruct (Z.eqb_spec n 0); try done; simpl;
      by destruct (Z.eqb_spec n 0).
  - intros [->| ->] [->| ->]; reflexivity.
Qed.

(** X7. The [model] argument of [text_completion] changes the log and
    nothing else: a name other than the adapter's adds one mismatch warning
    in front of the trace, and the outcome, a completion that names the
    adapter's own model or an exception, is the same. *)
Theorem text_completion_model_argument (self : TransformersAction) (env : Env)
    (prompt model_ : string) (kwargs : Kwargs) :
  (text_completion self env prompt model_ kwargs).1
    = (text_completion self env prompt (model_name self) kwargs).1
  ∧ (text_completion self env prompt model_ kwargs).2
    = (if String.eqb model_ (model_name self) || negb (Text.truthy prompt)
       then []
       else [Log (ModelMismatch model_ (model_name self))])
      ++ (text_completion self env prompt (model_name self) kwargs).2
  ∧ ∀ res, (text_completion self env prompt model_ kwargs).1 = Ok res →
           c_model res = model_name self.
Proof.
  destruct (Text.truthy prompt) eqn:Hp.
  - destruct (text_completion_unfold self env prompt model_ kwargs Hp)
      as (ml & ta & Ha & E).
    destruct (text_completion_unfold self env prompt (model_name self) kwargs Hp)
      as (ml' & ta' & Ha' & E').
    rewrite Ha in Ha'. injection Ha' as <- <-.
    cbv zeta in E, E'. rewrite E, E'. simpl fst. simpl snd.
    rewrite String.eqb_refl, orb_false_r. repeat split.
    intros res Hr. destruct (finish_reason_of _ _ _).1; [|done].
    by injection Hr as <-.
  - unfold text_completion. rewrite Hp. simpl. rewrite orb_true_r.
    repeat split. done.
Qed.

(** X9. With no stop words at all, neither the adapter's nor the request's,
    the finish reason of a returned completion is "stop" when the last id
    that [generate] returned is the tokenizer's end-of-sequence id and
    "length" otherwise; a tokenizer without such an id always gives
    "length"; and when the id is defined but [generate] returned nothing,
    the call raises [IndexError] instead of returning. *)
Theorem finish_reason_without_stop_words (self : TransformersAction)
    (env : Env) (prompt model_ : string) (kwargs : Kwargs) :
  Text.truthy prompt = true →
  criteria_of self kwargs = None →
  ∃ gk,
    let outputs := (generate (model self) (encode (tokenizer self) prompt) gk).1 in
    GenerateCall (encode (tokenizer self) prompt) gk
      ∈ (text_completion self env prompt model_ kwargs).2 ∧
    (text_completion self env prompt model_ kwargs).1
    = match eos_token_id (tokenizer self), last outputs with
      | Some eos, Some t =>
          Ok (completion_record self env prompt outputs
                (if t =? eos then "stop" else "length"))
      | Some _, None => Raise (IndexError "index -1 is out of bounds")
      | None, _ => Ok (completion_record self env prompt outputs "length")
      end.
Proof.
  intros Hp Hc.
  destruct (text_completion_unfold self env prompt model_ kwargs Hp)
    as (ml & ta & Ha & E).
  cbv zeta in E. rewrite E. simpl fst. simpl snd.
  exists {| gk_max_length := ml; gk_stopping_criteria := criteria_of self kwargs |}.
  split; [in_trace|].
  rewrite Hc. unfold finish_reason_of. simpl.
  destruct (eos_token_id (tokenizer self)) as [eos|]; [|done].
  by destruct (last _).
Qed.

Lemma finish_reason_without_stop_words_witness :
  ∃ gk,
    GenerateCall (Demo.char_encode "Q") gk
      ∈ (text_completion (Demo.action None [] None) Demo.env "Q" "demo"
           (Demo.kwargs None None)).2.
Proof.
  destruct (finish_reason_without_stop_words (Demo.action None [] None)
              Demo.env "Q" "demo" (Demo.kwargs None None) eq_refl eq_refl)
    as (gk & Hin & _).
  exists gk. exact Hin.
Defined.

(** X10. A chat response that is returned has exactly one choice, with index
    0 and the role [assistant]; its finish reason and its usage are those of
    the completion underneath, whose stop value is the one the prompt
    preparation produced; and it names the adapter's model, whichever model
    was asked for. *)
Theorem chat_response_shape (self : TransformersAction) (env : Env)
    (messages : list Message) (model_ : string) (kwargs : Kwargs)
    (res : ChatCompletion) (t : list Event) :
  chat self env messages model_ kwargs = (Ok res, t) →
  ∃ prompt stop completion choice t1 t2,
    prepare_prompt (tokenizer self) messages
      (default (StopSequence []) (kw_stop kwargs)) = (Ok (prompt, stop), t1) ∧
    text_completion self env prompt model_
      {| kw_max_tokens := kw_max_tokens kwargs;
         kw_max_length := kw_max_length kwargs;
         kw_stop := Some stop |} = (Ok completion, t2) ∧
    t = t1 ++ t2 ∧
    chat_choices res = [choice] ∧
    ch_index choice = 0 ∧
    m_role (ch_message choice) = "assistant" ∧
    [ch_finish_reason choice] = cc_finish_reason <$> c_choices completion ∧
    chat_usage res = c_usage completion ∧
    chat_id res = uuid4 env ∧
    chat_created res = time_end env ∧
    chat_model res = model_name self.
Proof.
  intros H. unfold chat in H. destruct messages as [|m0 messages']; [done|].
  apply bind_Ok_inv in H as ([prompt stop] & t1 & t' & Hp & H & ->).
  apply bind_Ok_inv in H as (completion & t2 & t'' & Hc & H & ->).
  apply bind_Ok_inv in H as (choices & t3 & t4 & Hch & H & ->).
  injection H as <- <-.
  destruct (text_completion_Ok_inv _ _ _ _ _ _ _ Hc)
    as (_ & gk & fr & _ & _ & _ & Hrec).
  rewrite Hrec in Hch. unfold completion_record in Hch. cbn [c_choices] in Hch.
  apply convert_choices_inv in Hch as (ws & _ & -> & ->).
  eexists prompt, stop, completion, _, t1, t2.
  repeat split; try done; try (by rewrite Hrec).
  by rewrite !app_nil_r.
Qed.

Lemma chat_response_shape_witness :
  ∃ res t,
    chat (Demo.action None [72; 105; 0] None) Demo.env [Demo.user "Hello"]
      "other" (Demo.kwargs None None) = (Ok res, t) ∧
    chat_model res = "demo".
Proof.
  eexists _, _. split; [vm_compute; reflexivity|].
  destruct (chat_response_shape (Demo.action None [72; 105; 0] None) Demo.env
              [Demo.user "Hello"] "other" (Demo.kwargs None None) _ _ eq_refl)
    as (? & ? & ? & ? & ? & ? & H).
  exact (proj2 (proj2 (proj2 (proj2 (proj2 (proj2 (proj2 (proj2 (proj2 (proj2 H)))))))))).
Defined.

(** X4. A chat without a chat template runs its completion with stopping
    criteria that hold the role stops, whatever the caller passed as [stop];
    the finish reason of a returned response is therefore "stop" exactly when
    the stopping hook matched a stop word during generation and "length"
    otherwise. Whether the last generated id is the end-of-sequence id plays
    no part, and the lookup of that id is not evaluated. *)
Theorem fallback_chat_finish_reason (self : TransformersAction) (env : Env)
    (messages : list Message) (model_ : string) (kwargs : Kwargs)
    (res : ChatCompletion) (t : list Event) :
  chat_template (tokenizer self) = None →
  chat self env messages model_ kwargs = (Ok res, t) →
  let prompt := fallback_prompt messages +:+ LF +:+ LF +:+ "assistant:" +:+ LF in
  let input_ids := encode (tokenizer self) prompt in
  ∃ gk sc choice,
    GenerateCall input_ids gk ∈ t ∧
    gk_stopping_criteria gk = Some sc ∧
    (∀ r, r ∈ roles messages → role_stop r ∈ sc_stop_words sc) ∧
    chat_choices res = [choice] ∧
    ch_finish_reason choice
    = match (generate (model self) input_ids gk).2 with
      | Some _ => "stop"
      | None => "length"
      end.
Proof.
  intros Ht H. cbv zeta.
  apply chat_inv in H
    as (prompt & stop & completion & ws & t1 & t2 & Hprep & Hc & Hi & Hr & ->).
  unfold prepare_prompt in Hprep. rewrite Ht in Hprep.
  destruct (negb (Text.truthy (fallback_prompt messages))); [done|].
  rewrite fallback_stop_eq in Hprep.
  unfold mbind, M_bind, mret, M_ret in Hprep. cbv beta iota in Hprep.
  injection Hprep as <- <- <-.
  apply text_completion_Ok_inv in Hc as (_ & gk & fr & Hin & Hcrit & Hf & ->).
  set (stops := filter (λ s, Is_true (Text.truthy s))
                  (must_list (default (StopSequence []) (kw_stop kwargs)))
                ++ (role_stop <$> elements (roles messages))) in *.
  set (kw := {| kw_max_tokens := kw_max_tokens kwargs;
                kw_max_length := kw_max_length kwargs;
                kw_stop := Some (StopSequence stops) |}) in *.
  assert (∀ r, r ∈ roles messages → role_stop r ∈ total_stop_words self kw)
    as Hroles.
  { intros r Hr'. unfold total_stop_words. simpl.
    apply elem_of_app. right. apply elem_of_app. right.
    apply list_elem_of_fmap. exists r. split; [done|].
    by apply elem_of_elements. }
  assert (criteria_of self kw
          = Some (from_stop_words (total_stop_words self kw) (tokenizer self)))
    as Hsc.
  { unfold criteria_of.
    pose proof (Hroles "assistant" (baseline_role_in_roles messages)) as Hin'.
    destruct (total_stop_words self kw); [by apply not_elem_of_nil in Hin'|done]. }
  rewrite Hsc in Hcrit, Hf. simpl in Hf.
  eexists gk, _, _. split; [by apply elem_of_app; right|].
  split; [exact Hcrit|]. split; [exact Hroles|].
  split; [rewrite Hr; reflexivity|].
  simpl. unfold finish_reason_of, get_stop_reason, text_or in Hf. simpl in Hf.
  destruct (generate (model self) _ gk).2; by injection Hf as <-.
Qed.

Lemma fallback_chat_finish_reason_witness :
  ∃ gk sc choice,
    GenerateCall (Demo.char_encode
                    ("user:" +:+ LF +:+ "Hello" +:+ LF +:+ LF
                     +:+ "assistant:" +:+ LF)) gk
      ∈ (chat (Demo.action None [72; 105; 0] None) Demo.env
           [Demo.user "Hello"] "demo" (Demo.kwargs None None)).2 ∧
    gk_stopping_criteria gk = Some sc ∧
    ch_finish_reason choice = "length".
Proof.
  destruct (fallback_chat_finish_reason (Demo.action None [72; 105; 0] None)
              Demo.env [Demo.user "Hello"] "demo" (Demo.kwargs None None)
              _ _ eq_refl eq_refl)
    as (gk & sc & choice & Hin & Hsc & _ & _ & Hf).
  exists gk, sc, choice. split; [exact Hin|]. split; [exact Hsc|exact Hf].
Defined.

(** ** Echo removal on texts without the tokens *)

Section echo_more.

Lemma occurs_cons token c s : occurs token s → occurs token (String c s).
Proof. intros (a & b & ->). by exists (String c a), b. Qed.

Lemma occurs_prefix token s r : Text.removeprefix token s = Some r → occurs token s.
Proof.
  intros H. exists "", r. rewrite app_empty_l. by apply removeprefix_Some.
Qed.

Lemma str_contains_spec token s :
  str_contains token s = true ↔ occurs token s.
Proof.
  induction s as [|c s IH]; simpl.
  - destruct (Text.removeprefix token "") as [r|] eqn:Hp.
    + split; [|done]. intros _. by apply (occurs_prefix _ _ r).
    + split; [done|]. intros ([|x a] & b & E); [|by rewrite app_cons in E].
      rewrite app_empty_l in E. by apply (removeprefix_None _ _ b) in Hp.
  - destruct (Text.removeprefix token (String c s)) as [r|] eqn:Hp.
    + split; [|done]. intros _. by apply (occurs_prefix _ _ r).
    + rewrite IH. split; [apply occurs_cons|].
      intros ([|x a] & b & E).
      * rewrite app_empty_l in E. by apply (removeprefix_None _ _ b) in Hp.
      * rewrite app_cons in E. injection E as -> E. by exists a, b.
Qed.

Lemma token_here_occurs token s n : Re.token_here token s = Some n → occurs token s.
Proof.
  unfold Re.token_here.
  destruct (Text.removeprefix token s) as [r|] eqn:Hp; [|done].
  intros _. by apply (occurs_prefix _ _ r).
Qed.

Lemma match_here_occurs token s n : Re.match_here token s = Some n → occurs token s.
Proof.
  revert n. induction s as [|c s IH]; intros n; simpl.
  - apply token_here_occurs.
  - destruct (Text.isspace c).
    + destruct (Re.match_here token s) as [k|].
      * intros _. apply occurs_cons. by apply (IH k).
      * apply token_here_occurs.
    + apply token_here_occurs.
Qed.

(** The substitution leaves a text that does not contain the token alone. *)
Lemma sub_without_token token s : str_contains token s = false → Re.sub token s = s.
Proof.
  unfold Re.sub. induction s as [|c s IH]; [done|]. intros Hc.
  change (Re.sub_go token 0 (String c s)) with
    (match Re.match_here token (String c s) with
     | Some (S n) => Re.sub_go token n s
     | _ => String c (Re.sub_go token 0 s)
     end).
  destruct (Re.match_here token (String c s)) as [n|] eqn:Hm.
  - apply match_here_occurs, str_contains_spec in Hm. congruence.
  - f_equal. apply IH.
    destruct (str_contains token s) eqn:Hs; [|done].
    apply str_contains_spec, (occurs_cons _ c), str_contains_spec in Hs. congruence.
Qed.

Lemma strip_token_without token text :
  (∀ t, token = Some t → str_contains t text = false) →
  strip_token token text = text.
Proof.
  intros H. destruct token as [t|]; [|done]. simpl.
  destruct (Text.truthy t); [|done]. by apply sub_without_token, H.
Qed.

End echo_more.

(** X11. When neither the [eos_token] nor the [bos_token] occurs in the
    prompt or in the decoded output, and the decoded output starts with the
    prompt, [remove_echo_text] returns what follows the prompt with the
    special tokens stripped. *)
Theorem remove_echo_text_without_tokens (tok : Tokenizer)
    (prompt rest : string) :
  (∀ t, eos_token tok = Some t ∨ bos_token tok = Some t →
        str_contains t prompt = false ∧
        str_contains t (prompt +:+ rest) = false) →
  remove_echo_text tok prompt (prompt +:+ rest) = remove_special_tokens rest tok.
Proof.
  intros H. unfold remove_echo_text, echo_removed, normalize.
  rewrite !(strip_token_without (eos_token tok)) by (intros t Ht; apply H; auto).
  rewrite !(strip_token_without (bos_token tok)) by (intros t Ht; apply H; auto).
  by rewrite replace_first_unfold, removeprefix_app.
Qed.

Lemma remove_echo_text_without_tokens_witness :
  remove_echo_text Demo.tok_bos "Hi" ("Hi" +:+ " there")
  = remove_special_tokens " there" Demo.tok_bos.
Proof.
  apply (remove_echo_text_without_tokens Demo.tok_bos "Hi" " there").
  intros t [[= <-]|[= <-]]; split; reflexivity.
Defined.

(** ** The model name *)

Section model_name_lemmas.

Lemma text_or_falsy o b : falsy o → text_or o b = b.
Proof. by intros [->| ->]. Qed.

Lemma text_or_truthy n b : n ≠ "" → text_or (Some n) b = n.
Proof. by destruct n. Qed.

Lemma has_slash_app a b : has_slash (a +:+ b) = has_slash a || has_slash b.
Proof.
  induction a as [|c a IH]; [done|].
  rewrite app_cons. simpl. by rewrite IH, orb_assoc.
Qed.

Lemma last_segment_no_slash s : has_slash s = false → last_segment s = s.
Proof.
  destruct s as [|c s]; [done|]. simpl.
  intros [Hc Hs]%orb_false_elim. by rewrite Hs, Hc.
Qed.

Lemma last_segment_spec s :
  has_slash (last_segment s) = false ∧
  ∃ before, s = before +:+ last_segment s ∧
            (before = "" ∨ ∃ p, before = p +:+ "/").
Proof.
  induction s as [|c s IH]; simpl.
  - split; [done|]. exists "". by split; [|left].
  - destruct (has_slash s) eqn:Hs.
    + destruct IH as (Hl & before & E & Hb). split; [done|].
      exists (String c before). split; [by rewrite app_cons, <- E|]. right.
      destruct Hb as [->|(p & ->)].
      * rewrite app_empty_l in E. rewrite <- E in Hl. congruence.
      * by exists (String c p).
    + destruct (Ascii.eqb_spec c "/") as [->|Hc].
      * split; [done|]. exists "/". split; [done|]. right. by exists "".
      * split; [simpl; rewrite Hs; by apply Ascii.eqb_neq in Hc as ->|].
        exists "". by split; [|left].
Qed.

End model_name_lemmas.

(** X12. The adapter's model name is the [model_name] keyword when that is a
    non-empty text, else [HF_MODEL_NAME], else [MODEL_NAME] of the
    environment; when all three are missing or empty the constructor raises
    [ValueError]; a name that is returned is never empty. *)
Theorem read_model_name_precedence (hf_model_name model_name_env
    model_name_kwarg : option string) :
  let read := read_model_name (MODEL_NAME hf_model_name model_name_env)
                model_name_kwarg in
  (∀ n, model_name_kwarg = Some n → n ≠ "" → read = (Ok n, []))
  ∧ (∀ n, falsy model_name_kwarg → hf_model_name = Some n → n ≠ "" →
          read = (Ok n, []))
  ∧ (∀ n, falsy model_name_kwarg → falsy hf_model_name →
          model_name_env = Some n → n ≠ "" → read = (Ok n, []))
  ∧ (falsy model_name_kwarg → falsy hf_model_name → falsy model_name_env →
     read = (Raise (ValueError "The `model_name` cannot be empty"), []))
  ∧ (∀ n t, read = (Ok n, t) → n ≠ "").
Proof.
  cbv zeta. unfold read_model_name, MODEL_NAME. repeat split.
  - intros n -> Hn. rewrite text_or_truthy by done. by destruct n.
  - intros n Hk -> Hn. rewrite (text_or_falsy _ _ Hk), text_or_truthy by done.
    by destruct n.
  - intros n Hk Hh -> Hn.
    rewrite (text_or_falsy _ _ Hk), (text_or_falsy _ _ Hh), text_or_truthy by done.
    by destruct n.
  - intros Hk Hh He.
    by rewrite (text_or_falsy _ _ Hk), (text_or_falsy _ _ Hh), (text_or_falsy _ _ He).
  - intros n t. destruct (text_or model_name_kwarg _) as [|c s]; [done|].
    by intros [= <- _].
Qed.

(** X13. The two deploy names of the adapter stand for the same model; the
    second is the model name without what precedes its last slash: it
    contains no slash, the model name ends with it, and what precedes it is
    empty or ends with a slash. A model name without a slash is its own
    alias. *)
Theorem model_deploys_alias (name : string) :
  (∀ d, d ∈ model_deploys name → d.2 = name)
  ∧ ∃ before alias,
      model_deploys name = [(name, name); (alias, name)] ∧
      has_slash alias = false ∧
      name = before +:+ alias ∧
      (before = "" ∨ ∃ p, before = p +:+ "/") ∧
      (has_slash name = false → alias = name).
Proof.
  split.
  - intros d Hd. unfold model_deploys in Hd.
    apply elem_of_cons in Hd as [->|Hd]; [done|].
    by apply list_elem_of_singleton in Hd as ->.
  - destruct (last_segment_spec name) as (Hl & before & E & Hb).
    exists before, (last_segment name). repeat split; try done.
    apply last_segment_no_slash.
Qed.

(** X14. With element counts that are not negative, [health] is true
    exactly when some parameter of the model has at least one element; a
    model without parameters, or with empty parameters only, is not healthy. *)
Theorem health_iff_some_parameter (numels : list Z) :
  Forall (λ n, 0 <= n) numels →
  health numels = true ↔ ∃ n, n ∈ numels ∧ 0 < n.
Proof.
  intros Hpos. unfold health.
  assert (∀ a, foldl Z.add a numels = a + foldr Z.add 0 numels) as H.
  { clear. induction numels as [|n l IH]; intros a; simpl; [lia|].
    rewrite IH. lia. }
  rewrite H. cbv zeta.
  assert (0 <= foldr Z.add 0 numels ∧
          (0 < foldr Z.add 0 numels ↔ ∃ n, n ∈ numels ∧ 0 < n)) as [Hs Hiff].
  { clear H. induction Hpos as [|n l Hn Hl [IH1 IH2]]; simpl.
    - split; [lia|]. split; [lia|]. intros (n & Hin & _).
      by apply not_elem_of_nil in Hin.
    - split; [lia|]. split.
      + intros Hlt. destruct (decide (0 < n)) as [Hp|Hp].
        * exists n. split; [by left|done].
        * destruct (proj1 IH2) as (m & Hin & Hm); [lia|].
          exists m. split; [by right|done].
      + intros (m & [->|Hin]%elem_of_cons & Hm); [lia|].
        assert (0 < foldr Z.add 0 l) by (apply IH2; by exists m). lia. }
  rewrite <- Hiff.
  destruct (Z.leb_spec (0 + foldr Z.add 0 numels) 0); split; (done || lia).
Qed.

Lemma health_iff_some_parameter_witness :
  health [0; 5] = true ↔ ∃ n, n ∈ [0; 5] ∧ 0 < n.
Proof.
  apply (health_iff_some_parameter [0; 5]).
  repeat constructor; lia.
Defined.

(** ** The quantization settings *)

Section quantization_lemmas.

Import Quantization.

Implicit Types (self : Attrs) (kwargs params : gmap string PyVal).

Lemma keys_NoDup : NoDup keys.
Proof. apply (bool_decide_unpack (NoDup keys)). vm_compute. exact I. Qed.

Lemma set_param_lookup self kwargs params key k :
  set_param self kwargs params key !! k
  = if decide (k = key)
    then match chosen self kwargs key with
         | VNone => params !! k
         | v => Some v
         end
    else params !! k.
Proof.
  unfold set_param. case_decide as Hk.
  - subst k. destruct (chosen self kwargs key); by rewrite ?lookup_insert_eq.
  - destruct (chosen self kwargs key); by rewrite ?lookup_insert_ne.
Qed.

Lemma foldl_set_param_lookup self kwargs params l k :
  NoDup l →
  foldl (set_param self kwargs) params l !! k
  = if decide (k ∈ l)
    then match chosen self kwargs k with
         | VNone => params !! k
         | v => Some v
         end
    else params !! k.
Proof.
  revert params. induction l as [|key l IH]; intros params Hnd.
  - cbn [foldl]. destruct (decide (k ∈ [])) as [H|H]; [|done].
    by apply not_elem_of_nil in H.
  - apply NoDup_cons in Hnd as [Hkey Hnd]. cbn [foldl]. rewrite IH by done.
    rewrite set_param_lookup.
    destruct (decide (k = key)) as [->|Hne].
    + rewrite (decide_False (P := key ∈ l)) by done.
      by rewrite (decide_True (P := key ∈ key :: l)) by (by left).
    + destruct (decide (k ∈ l)) as [Hin|Hin].
      * by rewrite (decide_True (P := k ∈ key :: l)) by (by right).
      * rewrite (decide_False (P := k ∈ key :: l)); [done|].
        by intros [?|?]%elem_of_cons.
Qed.

End quantization_lemmas.

(** X15. [load_quantization_config] returns [None] exactly when neither the
    [use_quantization] keyword is true nor the class attribute is set. *)
Theorem quantization_config_none_iff (self : Quantization.Attrs)
    (kwargs : gmap string Quantization.PyVal) :
  Quantization.load_quantization_config self kwargs = None
  ↔ Quantization.truthy
      (default Quantization.VNone (kwargs !! "use_quantization")) = false
    ∧ Quantization.use_quantization self = false.
Proof.
  unfold Quantization.load_quantization_config. cbv zeta.
  destruct (Quantization.truthy _), (Quantization.use_quantization self);
    simpl; split; (done || by intros []).
Qed.

(** X16. The arguments handed to [BitsAndBytesConfig] hold, for each of the
    nine settings, the value of the keyword when the keyword is present and
    the class attribute otherwise, and hold it only when it is not [None]:
    a keyword given as [None] removes a setting that the class defines, and
    no other keyword is passed on. *)
Theorem quantization_config_params (self : Quantization.Attrs)
    (kwargs params : gmap string Quantization.PyVal) :
  Quantization.load_quantization_config self kwargs = Some params →
  (∀ key,
     params !! key
     = if decide (key ∈ Quantization.keys)
       then match Quantization.chosen self kwargs key with
            | Quantization.VNone => None
            | v => Some v
            end
       else None)
  ∧ (∀ key, kwargs !! key = Some Quantization.VNone → params !! key = None)
  ∧ (∀ key v, key ∈ Quantization.keys → kwargs !! key = Some v →
              v ≠ Quantization.VNone → params !! key = Some v)
  ∧ (∀ key, key ∈ Quantization.keys → kwargs !! key = None →
            Quantization.attr self key ≠ Quantization.VNone →
            params !! key = Some (Quantization.attr self key)).
Proof.
  unfold Quantization.load_quantization_config. cbv zeta.
  destruct (_ || _); [|done]. intros [= <-].
  assert (∀ key,
     foldl (Quantization.set_param self kwargs) ∅ Quantization.keys !! key
     = if decide (key ∈ Quantization.keys)
       then match Quantization.chosen self kwargs key with
            | Quantization.VNone => None
            | v => Some v
            end
       else None) as H.
  { intros key. rewrite foldl_set_param_lookup by apply keys_NoDup.
    rewrite lookup_empty. by destruct (Quantization.chosen self kwargs key). }
  repeat split.
  - exact H.
  - intros key Hk. rewrite H. unfold Quantization.chosen. rewrite Hk.
    by case_decide.
  - intros key v Hin Hk Hv. rewrite H, decide_True by done.
    unfold Quantization.chosen. rewrite Hk. by destruct v.
  - intros key Hin Hk Hv. rewrite H, decide_True by done.
    unfold Quantization.chosen. rewrite Hk.
    by destruct (Quantization.attr self key).
Qed.

Lemma quantization_config_params_witness :
  ({[ "load_in_4bit" := Quantization.VBool true ]}
     : gmap string Quantization.PyVal) !! "load_in_8bit" = None.
Proof.
  refine (proj1 (proj2 (quantization_config_params
            {| Quantization.use_quantization := true;
               Quantization.load_in_8bit := Quantization.VBool true;
               Quantization.load_in_4bit := Quantization.VNone;
               Quantization.llm_int8_threshold := Quantization.VNone;
               Quantization.llm_int8_skip_modules := Quantization.VNone;
               Quantization.llm_int8_enable_fp32_cpu_offload := Quantization.VNone;
               Quantization.llm_int8_has_fp16_weight := Quantization.VNone;
               Quantization.bnb_4bit_compute_dtype := Quantization.VNone;
               Quantization.bnb_4bit_quant_type := Quantization.VNone;
               Quantization.bnb_4bit_use_double_quant := Quantization.VNone |}
            {[ "load_in_8bit" := Quantization.VNone;
               "load_in_4bit" := Quantization.VBool true ]}
            _ _)) "load_in_8bit" _).
  - vm_compute. reflexivity.
  - vm_compute. reflexivity.
Defined.

(** ** The embeddings call and its endpoint *)

(** X18. The endpoint answers with an [HTTPException] only in three cases,
    and always before the adapter or the network has been used: status 500
    for an application type that is neither [llm] nor [agent], status 404
    with the message of [ModelNotFound] when the action does not know the
    model, and status 404 when discovery lists no model for the id. *)
Theorem endpoint_http_errors (app : Server.App) (app_type : Server.AppType)
    (embedding_request : Server.EmbeddingRequest) (status_code : Z)
    (detail : string) (t : list Server.ServerEvent) :
  Server.handle_request app app_type embedding_request
    = (Server.HTTPException status_code detail, t) →
  t = [] ∧
  ((∃ name, app_type = Server.other name ∧ status_code = 500 ∧
            detail = if Text.truthy name
                     then "Unknown app server type: " +:+ name
                     else "App server type not implemented")
   ∨ (app_type = Server.llm ∧ status_code = 404 ∧
      Server.get_model_name app (Server.er_model embedding_request) = inr detail)
   ∨ (app_type = Server.agent ∧ status_code = 404 ∧
      Server.list_models app (Server.er_model embedding_request) = [] ∧
      detail = "Model '" +:+ Server.er_model embedding_request +:+ "' not found")).
Proof.
  destruct app_type as [| |name]; simpl.
  - unfold Server.handle_llm.
    destruct (Server.get_model_name app _) as [n|e] eqn:Hn.
    + destruct (embeddings _ _) as [[r|e] t']; [done|done].
    + intros [= <- <- <-]. split; [done|]. right. by left.
  - unfold Server.handle_agent.
    destruct (Server.list_models app _) as [|first models] eqn:Hl.
    + intros [= <- <- <-]. split; [done|]. right. by right.
    + cbv zeta. by destruct (Server.post app _ _).
  - intros [= <- <- <-]. split; [done|]. left. by exists name.
Qed.

Lemma endpoint_http_errors_witness :
  ([] : list Server.ServerEvent) = [] ∧
  ((∃ name, Server.other "worker" = Server.other name ∧ 500 = 500 ∧
            "Unknown app server type: worker"
            = if Text.truthy name
              then "Unknown app server type: " +:+ name
              else "App server type not implemented")
   ∨ (Server.other "worker" = Server.llm ∧ 500 = 404 ∧
      inl "demo" = inr "Unknown app server type: worker")
   ∨ (Server.other "worker" = Server.agent ∧ 500 = 404 ∧
      ([] : list string) = [] ∧
      "Unknown app server type: worker" = "Model '" +:+ "x" +:+ "' not found")).
Proof.
  exact (endpoint_http_errors
           {| Server.action := Demo.action None [] None;
              Server.get_model_name := λ _, inl "demo";
              Server.list_models := λ _, [];
              Server.draw := 0%nat;
              Server.with_path := λ u p, u +:+ p;
              Server.post := λ _ _, Raise (TypeError "no client") |}
           (Server.other "worker")
           {| Server.er_input := ["a"]; Server.er_model := "x" |}
           500 "Unknown app server type: worker" [] eq_refl).
Defined.

(** X19. For an [llm] application whose action knows the requested model,
    the endpoint returns exactly what the adapter's [embeddings] returns for
    the request's input, after one batch tokenizer call and one forward pass
    and nothing else; the response names the adapter's model, not the alias
    that was requested. *)
Theorem endpoint_llm_serves_adapter (app : Server.App)
    (embedding_request : Server.EmbeddingRequest) (name : string) :
  Server.get_model_name app (Server.er_model embedding_request) = inl name →
  ∃ res,
    Server.handle_request app Server.llm embedding_request
      = (Server.Returned res,
         [Server.Adapter (BatchTokenizerCall (Server.er_input embedding_request));
          Server.Adapter
            (ForwardCall
               (encode_batch (tokenizer (Server.action app))
                  (Server.er_input embedding_request)).1
               (encode_batch (tokenizer (Server.action app))
                  (Server.er_input embedding_request)).2)]) ∧
    (embeddings (Server.action app) (Server.er_input embedding_request)).1 = Ok res ∧
    r_model res = model_name (Server.action app).
Proof.
  intros Hn. simpl. unfold Server.handle_llm. rewrite Hn. simpl.
  destruct (embeddings_Ok (Server.action app)
              (Server.er_input embedding_request)) as (res & E & _ & _ & Hm & _).
  cbv zeta in E. rewrite E. exists res. by repeat split.
Qed.

Lemma endpoint_llm_serves_adapter_witness :
  ∃ res,
    (embeddings (Demo.action None [] None) ["ab"; "abcd"]).1 = Ok res ∧
    r_model res = "demo".
Proof.
  destruct (endpoint_llm_serves_adapter
              {| Server.action := Demo.action None [] None;
                 Server.get_model_name := λ _, inl "demo";
                 Server.list_models := λ _, [];
                 Server.draw := 0%nat;
                 Server.with_path := λ u p, u +:+ p;
                 Server.post := λ _ _, Raise (TypeError "no client") |}
              {| Server.er_input := ["ab"; "abcd"]; Server.er_model := "alias" |}
              "demo" eq_refl) as (res & _ & E & Hm).
  exists res. split; [exact E|exact Hm].
Defined.

(** X20. For an [agent] application with at least one discovered model, the
    endpoint sends the request once, to the [/embeddings] path of the owner
    of one of the discovered models, and answers with what that call gives;
    the adapter of the application is not used. *)
Theorem endpoint_agent_forwards (app : Server.App)
    (embedding_request : Server.EmbeddingRequest) :
  Server.list_models app (Server.er_model embedding_request) ≠ [] →
  ∃ owned_by,
    owned_by ∈ Server.list_models app (Server.er_model embedding_request) ∧
    Server.handle_request app Server.agent embedding_request
    = (match Server.post app (Server.with_path app owned_by "/embeddings")
               embedding_request with
       | Ok response => Server.Returned response
       | Raise e => Server.Uncaught e
       end,
       [Server.Post (Server.with_path app owned_by "/embeddings")
          embedding_request]).
Proof.
  intros Hne. simpl. unfold Server.handle_agent.
  destruct (Server.list_models app _) as [|first models] eqn:Hl; [done|].
  cbv zeta.
  destruct (lookup_lt_is_Some_2 (first :: models)
              (Server.draw app `mod` length (first :: models))%nat) as [o Ho].
  { apply Nat.mod_upper_bound. simpl. lia. }
  rewrite Ho. simpl default. exists o. split.
  - by apply list_elem_of_lookup_2 in Ho.
  - by destruct (Server.post app _ _).
Qed.

Lemma endpoint_agent_forwards_witness :
  ∃ owned_by,
    owned_by ∈ ["http://a"; "http://b"] ∧
    Server.handle_request
      {| Server.action := Demo.action None [] None;
         Server.get_model_name := λ _, inl "demo";
         Server.list_models := λ _, ["http://a"; "http://b"];
         Server.draw := 3%nat;
         Server.with_path := λ u p, u +:+ p;
         Server.post := λ _ _, Raise (TypeError "no client") |}
      Server.agent {| Server.er_input := ["a"]; Server.er_model := "x" |}
    = (Server.Uncaught (TypeError "no client"),
       [Server.Post (owned_by +:+ "/embeddings")
          {| Server.er_input := ["a"]; Server.er_model := "x" |}]).
Proof.
  destruct (endpoint_agent_forwards
              {| Server.action := Demo.action None [] None;
                 Server.get_model_name := λ _, inl "demo";
                 Server.list_models := λ _, ["http://a"; "http://b"];
                 Server.draw := 3%nat;
                 Server.with_path := λ u p, u +:+ p;
                 Server.post := λ _ _, Raise (TypeError "no client") |}
              {| Server.er_input := ["a"]; Server.er_model := "x" |})
    as (o & Hin & E); [discriminate|].
  exists o. split; [exact Hin|exact E].
Defined.
